(** * auto-2048: the move engine, the heuristic and the lookahead search

    A shallow embedding of [auto-2048.py].  Python integers are [Z], Python
    lists are [list], the scores are binary64 floats ([PrimFloat.float]).
    Functions that index a list return in an error monad whose failures are
    the Python exceptions the source can raise ([IndexError] from [l[i]],
    [ValueError] from [max] of an empty sequence, [AttributeError] from
    [.values()] on a float).  In-place mutation of the board is explicit
    state passing: a move returns the flag together with the mutated board.

    The game around the search is embedded too.  The random generator is
    explicit: [add_random_tile] takes the draw behind [random.choice] and the
    float [random.random()] returns.  The library's [sorted] is a parameter
    of [make_best_move_with_lookahead], of which the properties assume only
    that it returns a rearrangement of the items it is given.  Of what the
    program prints, the lines of [print_board] are modelled and the
    messages are left out. *)

From Stdlib Require Import ZArith List Bool Lia Floats Ascii Permutation.
From Stdlib Require String DecimalString.
Import ListNotations String.StringSyntax.
Open Scope Z_scope.
Delimit Scope string_scope with string.

(** ** Exceptions and the error monad *)

Inductive exn : Type := IndexError | ValueError | AttributeError.

Inductive res (A : Type) : Type :=
| Ok (a : A)
| Raise (e : exn).
Arguments Ok {A} a.
Arguments Raise {A} e.

Definition bind {A B : Type} (m : res A) (k : A -> res B) : res B :=
  match m with
  | Ok a => k a
  | Raise e => Raise e
  end.

Notation "x <- m ;; k" := (bind m (fun x => k))
  (at level 61, m at next level, right associativity).
Notation "' p <- m ;; k" := (bind m (fun x => let p := x in k))
  (at level 61, p pattern, m at next level, right associativity).

(** A [for] loop over [xs] threading the loop state [st]. *)
Fixpoint for_each {A S : Type} (xs : list A) (st : S) (body : S -> A -> res S)
  : res S :=
  match xs with
  | [] => Ok st
  | x :: xs' => st' <- body st x ;; for_each xs' st' body
  end.

(** ** Python lists *)

(** [range(4)] *)
Definition range4 : list Z := [0; 1; 2; 3].

(** The position [l[i]] denotes: a negative index counts from the end. *)
Definition py_index {A : Type} (l : list A) (i : Z) : option nat :=
  let n := Z.of_nat (length l) in
  let j := if i <? 0 then i + n else i in
  if (0 <=? j) && (j <? n) then Some (Z.to_nat j) else None.

(** [l[i]] *)
Definition py_get {A : Type} (l : list A) (i : Z) : res A :=
  match py_index l i with
  | Some j =>
      match nth_error l j with
      | Some x => Ok x
      | None => Raise IndexError
      end
  | None => Raise IndexError
  end.

Fixpoint replace_nth {A : Type} (l : list A) (j : nat) (x : A) : list A :=
  match l, j with
  | [], _ => []
  | _ :: t, O => x :: t
  | y :: t, S j' => y :: replace_nth t j' x
  end.

(** [l[i] = x] *)
Definition py_set {A : Type} (l : list A) (i : Z) (x : A) : res (list A) :=
  match py_index l i with
  | Some j => Ok (replace_nth l j x)
  | None => Raise IndexError
  end.

(** [m[r][c]] *)
Definition get2 {A : Type} (m : list (list A)) (r c : Z) : res A :=
  row <- py_get m r ;; py_get row c.

(** [m[r][c] = x] *)
Definition set2 {A : Type} (m : list (list A)) (r c : Z) (x : A)
  : res (list (list A)) :=
  row <- py_get m r ;;
  row' <- py_set row c x ;;
  py_set m r row'.

(** [zip] applied to the unpacked rows, each tuple as a list: the i-th
    list collects the i-th elements, and the result is as long as the
    shortest row. *)
Fixpoint zip_cons {A : Type} (row : list A) (cols : list (list A))
  : list (list A) :=
  match row, cols with
  | x :: xs, col :: cols' => (x :: col) :: zip_cons xs cols'
  | _, _ => []
  end.

Fixpoint zip_star {A : Type} (rows : list (list A)) : list (list A) :=
  match rows with
  | [] => []
  | [row] => map (fun x => [x]) row
  | row :: rest => zip_cons row (zip_star rest)
  end.

Fixpoint list_eqb (l1 l2 : list Z) : bool :=
  match l1, l2 with
  | [], [] => true
  | x :: t1, y :: t2 => (x =? y) && list_eqb t1 t2
  | _, _ => false
  end.

(** ** The board *)

Definition Row : Type := list Z.
Definition Board : Type := list Row.

(** Four rows of four cells. *)
Definition grid4 {A : Type} (m : list (list A)) : Prop :=
  length m = 4%nat /\ Forall (fun row => length row = 4%nat) m.

(** A board is a 4x4 matrix of integers. *)
Definition wf_board (b : Board) : Prop := grid4 b.

(** ** move_row_left *)

(** The [while new_row:] loop; [merged] is the accumulator it appends to. *)
Fixpoint merge_loop (new_row merged : list Z) : list Z :=
  match new_row with
  | [] => merged
  | x :: rest =>
      match rest with
      | y :: rest' =>
          if x =? y then merge_loop rest' (merged ++ [x * 2])
          else merge_loop rest (merged ++ [x])
      | [] => merge_loop rest (merged ++ [x])
      end
  end.

Definition move_row_left (row : Row) : Row :=
  let new_row := filter (fun cell => negb (cell =? 0)) row in
  let merged := merge_loop new_row [] in
  merged ++ repeat 0 (Z.to_nat (4 - Z.of_nat (length merged))).

(** ** Rotations *)

Definition rotate_board_clockwise (board : Board) : Board :=
  zip_star (rev board).

Definition rotate_board_counterclockwise (board : Board) : Board :=
  rev (zip_star board).

(** ** The four moves: each returns [(moved, board)], the flag and the
    board as the call leaves it. *)

Definition left (board : Board) : res (bool * Board) :=
  for_each range4 (false, board) (fun st r =>
    let '(moved, board) := st in
    row <- py_get board r ;;
    let new_row := move_row_left row in
    let moved := if negb (list_eqb new_row row) then true else moved in
    board <- py_set board r new_row ;;
    Ok (moved, board)).

(** [for r in range(4): board[r] = board[r][::-1]] *)
Definition reverse_rows (board : Board) : res Board :=
  for_each range4 board (fun board r =>
    row <- py_get board r ;; py_set board r (rev row)).

Definition right (board : Board) : res (bool * Board) :=
  board <- reverse_rows board ;;
  '(moved, board) <- left board ;;
  board <- reverse_rows board ;;
  Ok (moved, board).

Definition up (board : Board) : res (bool * Board) :=
  let rotated := rotate_board_counterclockwise board in
  '(moved, rotated) <- left rotated ;;
  Ok (moved, rotate_board_clockwise rotated).

Definition down (board : Board) : res (bool * Board) :=
  let rotated := rotate_board_clockwise board in
  '(moved, rotated) <- left rotated ;;
  Ok (moved, rotate_board_counterclockwise rotated).

(** ** Python numbers: a cell of the scoring matrix is the int [0] it was
    initialised with or the float a [normalize] call returned. *)

Inductive pyval : Type :=
| PInt (z : Z)
| PFloat (f : float).

(** [float(z)], rounded to nearest even. *)
Definition float_of_Z (z : Z) : float :=
  SF2Prim (binary_normalize prec emax z 0 false).

(** [x / 2048] on Python ints: the quotient correctly rounded to binary64.
    Above the binary64 range ([|x| >= 2^1035 - 2^981]) this is an infinity,
    where CPython reports the overflow instead; no board of the game comes
    near it (a 4x4 board cannot hold a tile above [2^17]). *)
Definition int_div_2048 (x : Z) : float :=
  SF2Prim (binary_normalize prec emax x (-11) false).

Definition normalize (x : Z) : pyval :=
  if negb (x =? 0) then PFloat (int_div_2048 x) else PInt 0.

Definition py_float (v : pyval) : float :=
  match v with
  | PInt z => float_of_Z z
  | PFloat f => f
  end.

Definition py_add (x y : pyval) : pyval :=
  match x, y with
  | PInt m, PInt n => PInt (m + n)
  | _, _ => PFloat (py_float x + py_float y)
  end.

(** [sum(row)] *)
Definition py_sum (row : list pyval) : pyval :=
  fold_left py_add row (PInt 0).

(** ** create_points *)

(** Lines 106-109: the four values a cell is compared with, in the order
    [(left, right, up, down)]. *)
Definition neighbors (board : Board) (r c : Z) : res (Z * Z * Z * Z) :=
  left <- (if c >? 0 then get2 board r (c - 1) else Ok 0) ;;
  right <- (if c <? 3 then get2 board r (c + 1) else Ok 0) ;;
  up <- (if r <? 3 then get2 board (r + 1) c else Ok 0) ;;
  down <- (if r <? 3 then get2 board (r - 1) c else Ok 0) ;;
  Ok (left, right, up, down).

(** Lines 110-117: the four conditional assignments to [board_p[r][c]]. *)
Definition score_cell (board_p : list (list pyval)) (r c : Z)
    (nb : Z * Z * Z * Z) (v : Z) : res (list (list pyval)) :=
  let '(left, right, up, down) := nb in
  board_p <- (if (left <? v) || (right >? v) || (up <=? v) || (down >=? v)
              then set2 board_p r c (normalize v) else Ok board_p) ;;
  board_p <- (if (left <? v) && (right >? v)
              then set2 board_p r c (normalize (2 * v)) else Ok board_p) ;;
  board_p <- (if (left <? v) && (right >? v) && (up <=? v) && (down >=? v)
              then set2 board_p r c (normalize (3 * v)) else Ok board_p) ;;
  board_p <- (if (left <? v) && (right >? v) && (up =? v) && (down =? v)
              then set2 board_p r c (normalize (6 * v)) else Ok board_p) ;;
  Ok board_p.

Definition create_points (board : Board) : res (list (list pyval)) :=
  let board_p := repeat (repeat (PInt 0) 4) 4 in
  for_each range4 board_p (fun board_p r =>
    for_each range4 board_p (fun board_p c =>
      v <- get2 board r c ;;
      if negb (v =? 0) then
        nb <- neighbors board r c ;;
        score_cell board_p r c nb v
      else Ok board_p)).

(** ** get_points *)

(** [sum(1 for ... if board[r][c] == x)] *)
Definition count_cells (board : Board) (x : Z) : res Z :=
  for_each range4 0 (fun n r =>
    for_each range4 n (fun n c =>
      v <- get2 board r c ;;
      Ok (if v =? x then n + 1 else n))).

(** [(length_of_zeros + 0.01) / (length_of_twos + 0.01) / 10]; the literal
    0.01 is the binary64 nearest to it. *)
Definition scale (length_of_zeros length_of_twos : Z) : float :=
  ((float_of_Z length_of_zeros + 0x1.47ae147ae147bp-7)
   / (float_of_Z length_of_twos + 0x1.47ae147ae147bp-7)
   / float_of_Z 10)%float.

(** [points] starts as the int 0 and is a float from the first row on;
    [0 + x] on an int and a float is [0.0 + x]. *)
Definition get_points (board : Board) : res float :=
  length_of_zeros <- count_cells board 0 ;;
  length_of_twos <- count_cells board 2 ;;
  board_p <- create_points board ;;
  for_each board_p 0%float (fun points row =>
    Ok (points + py_float (py_sum row) * scale length_of_zeros length_of_twos)%float).

(** ** evaluate_future_states *)

(** A dict keyed by the move letters, in insertion order. *)
Definition dict : Type := list (ascii * float).


(** [m[k] = x] *)
Fixpoint dict_set (m : dict) (k : ascii) (x : float) : dict :=
  match m with
  | [] => [(k, x)]
  | (k', y) :: m' =>
      if (k' =? k)%char then (k, x) :: m' else (k', y) :: dict_set m' k x
  end.


(** The two shapes [evaluate_future_states] returns. *)
Inductive result : Type :=
| Leaf (score : float)
| Branch (move_scores : dict).

(** [r.values()] *)
Definition values (r : result) : res (list float) :=
  match r with
  | Branch m => Ok (map snd m)
  | Leaf _ => Raise AttributeError
  end.

(** [max(xs)]: the first of the largest items, by [>]. *)
Definition py_max (xs : list float) : res float :=
  match xs with
  | [] => Raise ValueError
  | x :: rest =>
      Ok (fold_left (fun best y => if (best <? y)%float then y else best) rest x)
  end.

(** [move == key and op(board_copy)] *)
Definition guarded (move key : ascii) (op : Board -> res (bool * Board))
    (board_copy : Board) : res (bool * Board) :=
  if (move =? key)%char then op board_copy else Ok (false, board_copy).

(** [depth] is a non-negative integer. *)
Fixpoint evaluate_future_states (board : Board) (depth : nat) : res result :=
  match depth with
  | O => points <- get_points board ;; Ok (Leaf points)
  | S depth' =>
      let possible_moves :=
        [("w"%char, board); ("a"%char, board);
         ("s"%char, board); ("d"%char, board)] in
      let score (move_scores : dict) (move : ascii) (board_copy : Board) :=
        points <- get_points board_copy ;;
        future <- (if (1 <? depth)%nat
                   then r <- evaluate_future_states board_copy depth' ;;
                        vs <- values r ;;
                        py_max vs
                   else Ok 0%float) ;;
        Ok (dict_set move_scores move (points + future)%float) in
      move_scores <-
        for_each possible_moves [] (fun move_scores item =>
          let '(move, board_copy) := item in
          '(hit, board_copy) <- guarded move "w" up board_copy ;;
          if hit then score move_scores move board_copy else
          '(hit, board_copy) <- guarded move "a" left board_copy ;;
          if hit then score move_scores move board_copy else
          '(hit, board_copy) <- guarded move "s" down board_copy ;;
          if hit then score move_scores move board_copy else
          '(hit, board_copy) <- guarded move "d" right board_copy ;;
          if hit then score move_scores move board_copy else
          Ok move_scores) ;;
      Ok (Branch move_scores)
  end.


(** The sum of the cells of a row. *)
Definition row_sum (row : Row) : Z := fold_right Z.add 0 row.

(** The sum of the 16 cells. *)
Definition board_sum (b : Board) : Z :=
  fold_right (fun row acc => row_sum row + acc) 0 b.

(** The merge pass as the specification words it: scanning left to right,
    an adjacent equal pair becomes one tile of twice the value and the scan
    resumes after the pair, so the new tile is never looked at again. *)
Inductive merge_once : list Z -> list Z -> Prop :=
| merge_once_nil : merge_once [] []
| merge_once_last x : merge_once [x] [x]
| merge_once_pair x rest out :
    merge_once rest out -> merge_once (x :: x :: rest) (2 * x :: out)
| merge_once_keep x y rest out :
    x <> y -> merge_once (y :: rest) out ->
    merge_once (x :: y :: rest) (x :: out).

(** ** is_game_over *)

(** The two nested loops leave through [return]: the loop state is [None]
    while they run and [Some v] once [v] has been returned. *)
Definition is_game_over (board : Board) : res bool :=
  returned <-
    for_each range4 None (fun returned r =>
      for_each range4 returned (fun returned c =>
        match returned with
        | Some _ => Ok returned
        | None =>
            v <- get2 board r c ;;
            if v =? 0 then Ok (Some false) else
            same <- (if r <? 3
                     then w <- get2 board (r + 1) c ;; Ok (v =? w)
                     else Ok false) ;;
            if same then Ok (Some false) else
            same <- (if c <? 3
                     then w <- get2 board r (c + 1) ;; Ok (v =? w)
                     else Ok false) ;;
            if same then Ok (Some false) else Ok None
        end)) ;;
  Ok (match returned with
      | Some v => v
      | None => true
      end).

(** ** check_2048 *)

Definition check_2048 (board : Board) : bool :=
  existsb (fun row => existsb (fun cell => cell =? 2048) row) board.

(** ** add_random_tile and init_board *)

(** The list [empty] of the positions holding 0, in row-major order. *)
Definition empty_cells (board : Board) : res (list (Z * Z)) :=
  for_each range4 [] (fun empty r =>
    for_each range4 empty (fun empty c =>
      v <- get2 board r c ;;
      Ok (if v =? 0 then empty ++ [(r, c)] else empty))).

(** [random.choice(seq)], for the draw [k] of the generator: an element of
    [seq], and [IndexError] on an empty sequence. *)
Definition choice {A : Type} (seq : list A) (k : nat) : res A :=
  match nth_error seq (k mod length seq) with
  | Some x => Ok x
  | None => Raise IndexError
  end.

(** The generator is explicit: [k] is the draw behind [random.choice] and
    [u] the float [random.random()] returns; 0.9 is the binary64 nearest to
    it. *)
Definition add_random_tile (board : Board) (k : nat) (u : float)
  : res Board :=
  empty <- empty_cells board ;;
  match empty with
  | [] => Ok board
  | _ :: _ =>
      '(r, c) <- choice empty k ;;
      set2 board r c (if (u <? 0x1.ccccccccccccdp-1)%float then 2 else 4)
  end.

Definition init_board (k1 : nat) (u1 : float) (k2 : nat) (u2 : float)
  : res Board :=
  let board := repeat (repeat 0 4) 4 in
  board <- add_random_tile board k1 u1 ;;
  board <- add_random_tile board k2 u2 ;;
  Ok board.

(** ** make_best_move_with_lookahead *)





(** ** main *)





(** ** print_board *)





(** ** Notions the statements are written with *)

(** The test of the comprehension [cell for cell in row if cell != 0]. *)
Definition nonzero (cell : Z) : bool := negb (cell =? 0).

(** Does moving its rows left change this board? *)
Definition rows_changed (b : Board) : bool :=
  existsb (fun row => negb (list_eqb (move_row_left row) row)) b.

(** Total reads and writes of a grid, for positions known to be on it. *)
Definition grid_get {A : Type} (d : A) (m : list (list A)) (r c : Z) : A :=
  nth (Z.to_nat c) (nth (Z.to_nat r) m []) d.

Definition grid_set {A : Type} (m : list (list A)) (r c : Z) (x : A)
  : list (list A) :=
  replace_nth m (Z.to_nat r)
    (replace_nth (nth (Z.to_nat r) m []) (Z.to_nat c) x).





(** The entry of the scoring matrix for cell [(r, c)]: the cell's
    contribution before the rows are summed and scaled. *)
Definition points_at (board : Board) (r c : Z) : res pyval :=
  board_p <- create_points board ;; get2 board_p r c.

(** The board whose only tile is [v], at [(r, c)]. *)
Definition single_tile (r c v : Z) : Board :=
  grid_set (repeat (repeat 0 4) 4) r c v.

(** The four directions, by the key the search files them under. *)
Definition directions : list (ascii * (Board -> res (bool * Board))) :=
  [("w"%char, up); ("a"%char, left); ("s"%char, down); ("d"%char, right)].

(** Some direction changes the board. *)
Definition has_move (b : Board) : Prop :=
  exists key op b', In (key, op) directions /\ op b = Ok (true, b').

(** What every direction does on a board: it returns, the board stays a
    board, the flag says whether the board changed, and after a change the
    opposite direction is legal. *)
Definition move_ok (op : Board -> res (bool * Board)) (b : Board) : Prop :=
  exists moved b',
    op b = Ok (moved, b') /\ wf_board b'
    /\ (moved = true <-> b' <> b)
    /\ (moved = true -> has_move b').

(** The continuation value added to a direction's score at [depth]. *)
Definition future_score (board_copy : Board) (depth : nat) : res float :=
  if (1 <? depth)%nat
  then r <- evaluate_future_states board_copy (pred depth) ;;
       vs <- values r ;;
       py_max vs
  else Ok 0%float.

(** One pass of the loop over [possible_moves], for the key [key] whose
    move is [op]. *)
Definition try_direction (depth : nat) (key : ascii)
    (op : Board -> res (bool * Board)) (board : Board) (move_scores : dict)
  : res dict :=
  '(moved, board_copy) <- op board ;;
  if moved then
    points <- get_points board_copy ;;
    future <- future_score board_copy depth ;;
    Ok (dict_set move_scores key (points + future)%float)
  else Ok move_scores.

(** What one direction leaves in the mapping. *)
Definition direction_entry (depth : nat) (op : Board -> res (bool * Board))
    (board : Board) (entry : option float) : Prop :=
  exists moved b',
    op board = Ok (moved, b')
    /\ (moved = true <-> b' <> board)
    /\ (moved = false -> entry = None)
    /\ (moved = true ->
        exists points future,
          get_points b' = Ok points
          /\ future_score b' depth = Ok future
          /\ entry = Some (points + future)%float).


(** No two neighbours of a sequence are equal. *)
Fixpoint no_equal_neighbors (row : list Z) : Prop :=
  match row with
  | x :: rest =>
      match rest with
      | y :: _ => x <> y /\ no_equal_neighbors rest
      | [] => True
      end
  | [] => True
  end.

(** A full board with no two adjacent equal values in any row or column;
    the columns are the rows of the transposed board. *)
Definition full_and_locked (b : Board) : Prop :=
  Forall (fun row => Forall (fun x => x <> 0) row /\ no_equal_neighbors row) b
  /\ Forall no_equal_neighbors (zip_star b).

(** [count] cells of the board hold [x]. *)
Definition count_row (x : Z) (row : Row) : Z :=
  fold_right (fun v n => (if v =? x then 1 else 0) + n) 0 row.

Definition count_board (x : Z) (b : Board) : Z :=
  fold_right (fun row n => count_row x row + n) 0 b.

(** Some cell of the board holds a tile. *)
Definition has_tile (b : Board) : Prop :=
  exists row v, In row b /\ In v row /\ v <> 0.

(** A cell of the board holds [v]. *)
Definition on_board (v : Z) (b : Board) : Prop := In v (concat b).

(** A tile of the game: empty, or a power of two from 2 on. *)
Definition is_tile (v : Z) : Prop := v = 0 \/ exists k, 0 < k /\ v = 2 ^ k.

(** Every cell of the board holds a tile. *)
Definition valid_board (b : Board) : Prop := forall v, on_board v b -> is_tile v.

(** The tests [is_game_over] makes at a cell: it holds a tile that differs
    from the cell below and from the cell to its right. *)
Definition cell_locked (b : Board) (r c : Z) : bool :=
  let v := grid_get 0 b r c in
  negb (v =? 0)
  && negb ((r <? 3) && (v =? grid_get 0 b (r + 1) c))
  && negb ((c <? 3) && (v =? grid_get 0 b r (c + 1))).

(** A row with no tile at all, or full of tiles no two neighbours of which
    are equal. *)
Definition row_settled (row : Row) : Prop :=
  Forall (fun x => x = 0) row
  \/ (Forall (fun x => x <> 0) row /\ no_equal_neighbors row).

(** The cell at row [r], column [c] of [board] is empty. *)
Definition is_empty (board : Board) (rc : Z * Z) : bool :=
  grid_get 0 board (fst rc) (snd rc) =? 0.

(** The sixteen positions, row by row. *)
Definition positions : list (Z * Z) := list_prod range4 range4.

(** [2 if random.random() < 0.9 else 4], for the draw [u]. *)
Definition new_tile (u : float) : Z :=
  if (u <? 0x1.ccccccccccccdp-1)%float then 2 else 4.

(** [b'] is [board] with the empty cell at row [r], column [c] set to [v]
    and every other cell as it was. *)
Definition placed (board b' : Board) (r c v : Z) : Prop :=
  grid_get 0 board r c = 0
  /\ grid_get 0 b' r c = v
  /\ forall r' c', In r' range4 -> In c' range4 -> (r', c') <> (r, c) ->
       grid_get 0 b' r' c' = grid_get 0 board r' c'.




(** * Properties *)

(** ** Lists *)

Lemma list_eqb_eq l1 l2 : list_eqb l1 l2 = true <-> l1 = l2.
Proof.
  revert l2; induction l1 as [|x t IH]; intros [|y t2]; simpl;
    try (split; congruence).
  rewrite andb_true_iff, Z.eqb_eq, IH. split.
  - intros [-> ->]; reflexivity.
  - intros [= -> ->]; auto.
Qed.

Lemma list_eqb_refl l : list_eqb l l = true.
Proof. apply list_eqb_eq; reflexivity. Qed.

Lemma list_eqb_neq l1 l2 : list_eqb l1 l2 = false <-> l1 <> l2.
Proof.
  rewrite <- list_eqb_eq. destruct (list_eqb l1 l2); split; congruence.
Qed.

Lemma length4_inv {A} (l : list A) :
  length l = 4%nat -> exists a b c d, l = [a; b; c; d].
Proof.
  destruct l as [|a [|b [|c [|d [|e l]]]]]; simpl; try discriminate.
  intros _; eauto.
Qed.

Lemma grid4_inv {A} (b : list (list A)) :
  grid4 b ->
  exists r0 r1 r2 r3, b = [r0; r1; r2; r3] /\
    length r0 = 4%nat /\ length r1 = 4%nat /\
    length r2 = 4%nat /\ length r3 = 4%nat.
Proof.
  intros [Hl Hr]. destruct (length4_inv _ Hl) as (r0 & r1 & r2 & r3 & ->).
  exists r0, r1, r2, r3.
  repeat match goal with H : Forall _ (_ :: _) |- _ => inversion H; clear H; subst end.
  auto.
Qed.

Lemma grid4_rows {A} (r0 r1 r2 r3 : list A) :
  length r0 = 4%nat -> length r1 = 4%nat ->
  length r2 = 4%nat -> length r3 = 4%nat -> grid4 [r0; r1; r2; r3].
Proof. intros; split; [reflexivity | repeat constructor; assumption]. Qed.

Lemma wf_board_rows (r0 r1 r2 r3 : Row) :
  length r0 = 4%nat -> length r1 = 4%nat ->
  length r2 = 4%nat -> length r3 = 4%nat -> wf_board [r0; r1; r2; r3].
Proof. intros; split; [reflexivity | repeat constructor; assumption]. Qed.

(** Name the rows, then the 16 cells, of a well-formed board. *)
Ltac name_rows H :=
  let r0 := fresh "r0" in let r1 := fresh "r1" in
  let r2 := fresh "r2" in let r3 := fresh "r3" in
  let L0 := fresh "L0" in let L1 := fresh "L1" in
  let L2 := fresh "L2" in let L3 := fresh "L3" in
  destruct (grid4_inv _ H) as (r0 & r1 & r2 & r3 & -> & L0 & L1 & L2 & L3).

Ltac name_cells H :=
  name_rows H;
  repeat match goal with
  | L : length ?r = 4%nat |- _ =>
      let a := fresh "a" in let b := fresh "b" in
      let c := fresh "c" in let d := fresh "d" in
      destruct (length4_inv _ L) as (a & b & c & d & ->); clear L
  end.

(** ** The merge loop *)

Lemma merge_loop_cons2 x y rest acc :
  merge_loop (x :: y :: rest) acc =
  if x =? y then merge_loop rest (acc ++ [x * 2])
  else merge_loop (y :: rest) (acc ++ [x]).
Proof. reflexivity. Qed.

Lemma merge_loop_acc_gen n : forall l acc,
  (length l <= n)%nat -> merge_loop l acc = acc ++ merge_loop l [].
Proof.
  induction n as [|n IH]; intros l acc Hn.
  - destruct l; [simpl; now rewrite app_nil_r | simpl in Hn; lia].
  - destruct l as [|x [|y rest]].
    + simpl. now rewrite app_nil_r.
    + reflexivity.
    + simpl in Hn. rewrite !merge_loop_cons2. destruct (x =? y).
      * rewrite (IH rest (acc ++ [x * 2])), (IH rest ([] ++ [x * 2])) by lia.
        now rewrite <- app_assoc.
      * rewrite (IH (y :: rest) (acc ++ [x])), (IH (y :: rest) ([] ++ [x]))
          by (simpl; lia).
        now rewrite <- app_assoc.
Qed.

Lemma merge_loop_acc l acc : merge_loop l acc = acc ++ merge_loop l [].
Proof. apply (merge_loop_acc_gen (length l)); lia. Qed.

Lemma merge_loop_pair x rest :
  merge_loop (x :: x :: rest) [] = x * 2 :: merge_loop rest [].
Proof. rewrite merge_loop_cons2, Z.eqb_refl. now rewrite merge_loop_acc. Qed.

Lemma merge_loop_keep x y rest :
  x <> y -> merge_loop (x :: y :: rest) [] = x :: merge_loop (y :: rest) [].
Proof.
  intros H. rewrite merge_loop_cons2. apply Z.eqb_neq in H. rewrite H.
  now rewrite merge_loop_acc.
Qed.

(** Induction over a list two elements at a time. *)
Lemma list_ind2 {A} (P : list A -> Prop) :
  P [] -> (forall x, P [x]) ->
  (forall x y l, P l -> P (y :: l) -> P (x :: y :: l)) ->
  forall l, P l.
Proof.
  intros H0 H1 H2 l.
  assert (H : P l /\ forall x, P (x :: l)); [|tauto].
  induction l as [|y l [IHa IHb]]; split; auto.
Qed.

Lemma merge_loop_spec l : merge_once l (merge_loop l []).
Proof.
  induction l as [| x | x y l IH1 IH2] using list_ind2.
  - constructor.
  - constructor.
  - destruct (Z.eq_dec x y) as [->|Hxy].
    + rewrite merge_loop_pair, Z.mul_comm. now constructor.
    + rewrite merge_loop_keep by assumption. now constructor.
Qed.

Lemma merge_once_length l out : merge_once l out -> (length out <= length l)%nat.
Proof. induction 1; simpl in *; lia. Qed.

Lemma merge_once_sum l out : merge_once l out -> row_sum out = row_sum l.
Proof. induction 1; unfold row_sum in *; cbn [fold_right] in *; lia. Qed.

Lemma merge_once_nonzero l out :
  merge_once l out -> Forall (fun x => x <> 0) l -> Forall (fun x => x <> 0) out.
Proof.
  induction 1; intros HF; auto.
  - inversion HF as [|? ? Hx HF']; subst. inversion HF'; subst.
    constructor; [lia | auto].
  - inversion HF; subst. constructor; auto.
Qed.

(** With as many tiles out as in, nothing was merged. *)
Lemma merge_once_same_length l out :
  merge_once l out -> length out = length l -> out = l.
Proof.
  induction 1; simpl; intros HL; auto.
  - apply merge_once_length in H. lia.
  - f_equal. apply IHmerge_once. simpl. lia.
Qed.

Lemma merge_once_nonempty l out : merge_once l out -> l <> [] -> out <> [].
Proof. induction 1; intros; discriminate || assumption. Qed.

(** ** move_row_left *)

Lemma filter_nonzero_all row :
  Forall (fun x => x <> 0) (filter nonzero row).
Proof.
  apply Forall_forall. intros x Hx. apply filter_In in Hx as [_ Hx].
  unfold nonzero in Hx. apply negb_true_iff, Z.eqb_neq in Hx. assumption.
Qed.

Lemma filter_length_le {A} (f : A -> bool) l :
  (length (filter f l) <= length l)%nat.
Proof. induction l as [|x l IH]; simpl; [lia|]. destruct (f x); simpl; lia. Qed.

Lemma filter_same_length {A} (f : A -> bool) l :
  length (filter f l) = length l -> filter f l = l.
Proof.
  induction l as [|x l IH]; simpl; auto.
  destruct (f x); simpl; intros H.
  - f_equal. apply IH. lia.
  - pose proof (filter_length_le f l). lia.
Qed.

Lemma filter_nonzero_nil row :
  filter nonzero row = [] -> row = repeat 0 (length row).
Proof.
  induction row as [|x row IH]; simpl; auto.
  unfold nonzero at 1. destruct (Z.eqb_spec x 0); simpl; [|discriminate].
  intros H. subst x. f_equal. auto.
Qed.

Lemma filter_nonzero_sum row : row_sum (filter nonzero row) = row_sum row.
Proof.
  induction row as [|x row IH]; simpl; auto.
  unfold nonzero at 1. destruct (Z.eqb_spec x 0); simpl; lia.
Qed.

Lemma row_sum_app l1 l2 : row_sum (l1 ++ l2) = row_sum l1 + row_sum l2.
Proof. induction l1; simpl in *; lia. Qed.

Lemma row_sum_zeros n : row_sum (repeat 0 n) = 0.
Proof. induction n; simpl in *; lia. Qed.

Lemma row_sum_rev l : row_sum (rev l) = row_sum l.
Proof.
  induction l; simpl; auto. rewrite row_sum_app. simpl in *. lia.
Qed.

(** The row a move produces: the merged tiles, all non-zero, then zeros. *)
Lemma move_row_left_shape row :
  exists merged,
    move_row_left row = merged ++ repeat 0 (4 - length merged)
    /\ merge_once (filter nonzero row) merged
    /\ Forall (fun x => x <> 0) merged.
Proof.
  exists (merge_loop (filter nonzero row) []).
  pose proof (merge_loop_spec (filter nonzero row)) as Hm.
  repeat split; auto.
  - unfold move_row_left. fold nonzero. do 2 f_equal. lia.
  - eapply merge_once_nonzero; eauto. apply filter_nonzero_all.
Qed.

Lemma move_row_left_sum row : row_sum (move_row_left row) = row_sum row.
Proof.
  destruct (move_row_left_shape row) as (mg & -> & Hm & _).
  rewrite row_sum_app, row_sum_zeros, (merge_once_sum _ _ Hm).
  rewrite filter_nonzero_sum. lia.
Qed.

Lemma move_row_left_length row :
  (length row <= 4)%nat -> length (move_row_left row) = 4%nat.
Proof.
  intros HL. destruct (move_row_left_shape row) as (mg & -> & Hm & _).
  apply merge_once_length in Hm.
  pose proof (filter_length_le nonzero row).
  rewrite length_app, repeat_length. lia.
Qed.

Lemma move_row_left_cells row :
  length row = 4%nat -> exists w x y z, move_row_left row = [w; x; y; z].
Proof. intros H. apply length4_inv, move_row_left_length. lia. Qed.

(** A full row with no equal neighbours stays as it is. *)
Lemma move_row_left_fixed a b c d :
  a <> 0 -> b <> 0 -> c <> 0 -> d <> 0 -> a <> b -> b <> c -> c <> d ->
  move_row_left [a; b; c; d] = [a; b; c; d].
Proof.
  intros Ha Hb Hc Hd Hab Hbc Hcd. unfold move_row_left. simpl filter.
  apply Z.eqb_neq in Ha, Hb, Hc, Hd. rewrite Ha, Hb, Hc, Hd. simpl negb. cbv iota.
  rewrite merge_loop_keep, merge_loop_keep, merge_loop_keep by assumption.
  reflexivity.
Qed.

Lemma hd_rev {A} (d : A) l : hd d (rev l) = last l d.
Proof.
  induction l as [|x l IH]; auto.
  simpl rev. destruct l as [|y l]; auto.
  change (last (x :: y :: l) d) with (last (y :: l) d). rewrite <- IH.
  simpl. destruct (rev l ++ [y]) eqn:E; auto.
  apply app_eq_nil in E as [_ E]. discriminate.
Qed.

Lemma last_app_zeros l n d : last (l ++ repeat 0 (S n)) d = 0.
Proof.
  simpl repeat. rewrite repeat_cons, app_assoc. apply last_last.
Qed.

(** The first cell of a moved row is a tile as soon as the row has one. *)
Lemma move_row_left_hd row :
  filter nonzero row <> [] -> hd 0 (move_row_left row) <> 0.
Proof.
  intros Hne. destruct (move_row_left_shape row) as (mg & -> & Hm & Hnz).
  pose proof (merge_once_nonempty _ _ Hm Hne) as Hmg.
  destruct mg as [|x mg]; [congruence|].
  inversion Hnz; subst. assumption.
Qed.

(** A row that a move changed starts with a tile and ends with a gap. *)
Lemma move_row_left_changed row :
  length row = 4%nat -> move_row_left row <> row ->
  hd 0 (move_row_left row) <> 0 /\ last (move_row_left row) 1 = 0.
Proof.
  intros HL Hch.
  assert (Hne : filter nonzero row <> []).
  { intros E. apply Hch. unfold move_row_left. fold nonzero. rewrite E.
    apply filter_nonzero_nil in E. rewrite HL in E. rewrite E. reflexivity. }
  split; [apply move_row_left_hd; assumption|].
  destruct (move_row_left_shape row) as (mg & E & Hm & Hnz).
  pose proof (merge_once_length _ _ Hm) as H1.
  pose proof (filter_length_le nonzero row) as H2.
  destruct (Nat.eq_dec (length mg) 4) as [E4|N4].
  - exfalso. apply Hch. rewrite E, E4. simpl. rewrite app_nil_r.
    assert (Hf : filter nonzero row = row) by (apply filter_same_length; lia).
    rewrite Hf in Hm. apply merge_once_same_length; [assumption | lia].
  - rewrite E. destruct (4 - length mg)%nat as [|k] eqn:Ek; [lia|].
    apply last_app_zeros.
Qed.

(** Moving the other way then changes that row again. *)
Lemma move_row_left_rev_changed row :
  length row = 4%nat -> move_row_left row <> row ->
  move_row_left (rev (move_row_left row)) <> rev (move_row_left row).
Proof.
  intros HL Hch. destruct (move_row_left_changed row HL Hch) as [Hhd Hlast].
  set (out := move_row_left row) in *.
  assert (Hne : filter nonzero (rev out) <> []).
  { destruct out as [|x out'] eqn:E; [simpl in Hhd; congruence|].
    simpl in Hhd. intros Hf.
    assert (Hin : In x (filter nonzero (rev (x :: out')))).
    { apply filter_In. split; [apply in_rev; rewrite rev_involutive; left; reflexivity|].
      unfold nonzero. apply negb_true_iff, Z.eqb_neq. assumption. }
    rewrite Hf in Hin. inversion Hin. }
  apply move_row_left_hd in Hne. intros E. rewrite E in Hne.
  assert (Hh : hd 0 (rev out) = 0).
  { destruct (rev out) as [|y t] eqn:Er; [reflexivity|].
    pose proof (hd_rev 1 out) as H. rewrite Er in H. simpl in H. simpl. congruence. }
  congruence.
Qed.

(** ** Boards: shape *)

Lemma wf_board_map (f : Row -> Row) b :
  (forall row, length row = 4%nat -> length (f row) = 4%nat) ->
  wf_board b -> wf_board (map f b).
Proof.
  intros Hf [HL HR]. split; [now rewrite length_map|].
  apply Forall_map. eapply Forall_impl; [|exact HR]. auto.
Qed.

Lemma wf_board_moved b : wf_board b -> wf_board (map move_row_left b).
Proof.
  apply wf_board_map. intros row H. apply move_row_left_length. lia.
Qed.

Lemma wf_board_reversed b : wf_board b -> wf_board (map (@rev Z) b).
Proof. apply wf_board_map. intros row H. now rewrite length_rev. Qed.

Lemma wf_rotate_clockwise b : wf_board b -> wf_board (rotate_board_clockwise b).
Proof. intros H. name_cells H. apply wf_board_rows; reflexivity. Qed.

Lemma wf_rotate_counterclockwise b :
  wf_board b -> wf_board (rotate_board_counterclockwise b).
Proof. intros H. name_cells H. apply wf_board_rows; reflexivity. Qed.

(** ** Rotations undo each other *)

Lemma rotate_clockwise_counterclockwise b :
  wf_board b -> rotate_board_clockwise (rotate_board_counterclockwise b) = b.
Proof. intros H. name_cells H. reflexivity. Qed.

Lemma rotate_counterclockwise_clockwise b :
  wf_board b -> rotate_board_counterclockwise (rotate_board_clockwise b) = b.
Proof. intros H. name_cells H. reflexivity. Qed.

(** ** The moves in closed form *)

Lemma rows_changed_true b :
  rows_changed b = true <-> map move_row_left b <> b.
Proof.
  unfold rows_changed. induction b as [|row b IH]; simpl.
  - split; [discriminate | congruence].
  - rewrite orb_true_iff, IH, negb_true_iff, list_eqb_neq. split.
    + intros [H|H] [= E1 E2]; auto.
    + intros H. destruct (list_eq_dec Z.eq_dec (move_row_left row) row) as [E|N];
        [right | left; assumption].
      intros E2. apply H. congruence.
Qed.

Lemma rows_changed_false b :
  rows_changed b = false <-> map move_row_left b = b.
Proof.
  pose proof (rows_changed_true b) as H.
  destruct (list_eq_dec (list_eq_dec Z.eq_dec) (map move_row_left b) b) as [E|N].
  - split; auto. intros _. destruct (rows_changed b); auto.
    exfalso. apply H; auto.
  - split; [|contradiction]. intros E. apply H in N. congruence.
Qed.

(** Indexing a four-element list at the constant positions the loops use. *)
Lemma py_get4 {A} (x0 x1 x2 x3 : A) :
  py_get [x0; x1; x2; x3] 0 = Ok x0 /\ py_get [x0; x1; x2; x3] 1 = Ok x1 /\
  py_get [x0; x1; x2; x3] 2 = Ok x2 /\ py_get [x0; x1; x2; x3] 3 = Ok x3 /\
  py_get [x0; x1; x2; x3] (-1) = Ok x3.
Proof. repeat split. Qed.

Lemma py_set4 {A} (x0 x1 x2 x3 y : A) :
  py_set [x0; x1; x2; x3] 0 y = Ok [y; x1; x2; x3] /\
  py_set [x0; x1; x2; x3] 1 y = Ok [x0; y; x2; x3] /\
  py_set [x0; x1; x2; x3] 2 y = Ok [x0; x1; y; x3] /\
  py_set [x0; x1; x2; x3] 3 y = Ok [x0; x1; x2; y].
Proof. repeat split. Qed.

Ltac index4 :=
  repeat first
    [ rewrite (proj1 (py_get4 _ _ _ _))
    | rewrite (proj1 (proj2 (py_get4 _ _ _ _)))
    | rewrite (proj1 (proj2 (proj2 (py_get4 _ _ _ _))))
    | rewrite (proj1 (proj2 (proj2 (proj2 (py_get4 _ _ _ _)))))
    | rewrite (proj2 (proj2 (proj2 (proj2 (py_get4 _ _ _ _)))))
    | rewrite (proj1 (py_set4 _ _ _ _ _))
    | rewrite (proj1 (proj2 (py_set4 _ _ _ _ _)))
    | rewrite (proj1 (proj2 (proj2 (py_set4 _ _ _ _ _))))
    | rewrite (proj2 (proj2 (proj2 (py_set4 _ _ _ _ _))))
    | progress cbn [bind for_each] ].

Lemma left_closed b :
  wf_board b -> left b = Ok (rows_changed b, map move_row_left b).
Proof.
  intros H. name_rows H. unfold left, rows_changed, range4. index4.
  cbn [map existsb].
  repeat match goal with
  | |- context [list_eqb ?x ?y] => destruct (list_eqb x y)
  end; reflexivity.
Qed.

Lemma reverse_rows_closed b :
  wf_board b -> reverse_rows b = Ok (map (@rev Z) b).
Proof. intros H. name_rows H. unfold reverse_rows, range4. index4. reflexivity. Qed.

Lemma right_closed b :
  wf_board b ->
  right b = Ok (rows_changed (map (@rev Z) b),
                map (@rev Z) (map move_row_left (map (@rev Z) b))).
Proof.
  intros H. unfold right.
  rewrite reverse_rows_closed by assumption. cbn [bind].
  rewrite left_closed by (apply wf_board_reversed; assumption). cbn [bind].
  rewrite reverse_rows_closed
    by (apply wf_board_moved, wf_board_reversed; assumption).
  reflexivity.
Qed.

Lemma up_closed b :
  wf_board b ->
  up b = Ok (rows_changed (rotate_board_counterclockwise b),
             rotate_board_clockwise
               (map move_row_left (rotate_board_counterclockwise b))).
Proof.
  intros H. unfold up.
  rewrite left_closed by (apply wf_rotate_counterclockwise; assumption).
  reflexivity.
Qed.

Lemma down_closed b :
  wf_board b ->
  down b = Ok (rows_changed (rotate_board_clockwise b),
               rotate_board_counterclockwise
                 (map move_row_left (rotate_board_clockwise b))).
Proof.
  intros H. unfold down.
  rewrite left_closed by (apply wf_rotate_clockwise; assumption).
  reflexivity.
Qed.

(** ** Sums *)

Lemma board_sum_map (f : Row -> Row) b :
  (forall row, row_sum (f row) = row_sum row) ->
  board_sum (map f b) = board_sum b.
Proof.
  intros Hf. induction b as [|row b IH]; simpl; auto. rewrite Hf, IH. reflexivity.
Qed.

Lemma board_sum_rotate_clockwise b :
  wf_board b -> board_sum (rotate_board_clockwise b) = board_sum b.
Proof. intros H. name_cells H. cbn. lia. Qed.

Lemma board_sum_rotate_counterclockwise b :
  wf_board b -> board_sum (rotate_board_counterclockwise b) = board_sum b.
Proof. intros H. name_cells H. cbn. lia. Qed.

(** ** The claims on the move engine *)

(** C6. On every board [left] returns [true] exactly when the move gives
    some row a sequence other than the one it had, every row becoming its
    [move_row_left]; when it returns [false] the whole board is as before.
    The rows [0,0,0,0] and [2,0,0,0] report no change, the row [0,2,0,0]
    reports one and becomes [2,0,0,0]. *)
Theorem left_reports_change (b : Board) (H : wf_board b) :
  exists moved b',
    left b = Ok (moved, b')
    /\ b' = map move_row_left b
    /\ (moved = true <->
        exists r old new, nth_error b r = Some old /\ nth_error b' r = Some new
                          /\ new <> old)
    /\ (moved = false -> b' = b)
    /\ left [[0;0;0;0]; [2;0;0;0]; [0;0;0;0]; [2;0;0;0]]
       = Ok (false, [[0;0;0;0]; [2;0;0;0]; [0;0;0;0]; [2;0;0;0]])
    /\ left [[0;2;0;0]; [0;0;0;0]; [0;0;0;0]; [0;0;0;0]]
       = Ok (true, [[2;0;0;0]; [0;0;0;0]; [0;0;0;0]; [0;0;0;0]]).
Proof.
  exists (rows_changed b), (map move_row_left b).
  split; [apply left_closed; assumption|].
  split; [reflexivity|].
  split; [|split; [|split; reflexivity]].
  - rewrite rows_changed_true. split.
    + intros Hne.
      assert (Hex : exists r old, nth_error b r = Some old /\ move_row_left old <> old).
      { clear H. induction b as [|row b IH]; [exfalso; apply Hne; reflexivity|].
        destruct (list_eq_dec Z.eq_dec (move_row_left row) row) as [E|N].
        - destruct IH as (r & old & Hr & Hn).
          + intros E2. apply Hne. simpl. congruence.
          + exists (S r), old. auto.
        - exists 0%nat, row. auto. }
      destruct Hex as (r & old & Hr & Hn).
      exists r, old, (move_row_left old). repeat split; auto.
      rewrite nth_error_map, Hr. reflexivity.
    + intros (r & old & new & Ho & Hn & Hne) E. rewrite E in Hn. congruence.
  - apply rows_changed_false.
Qed.

Lemma left_reports_change_witness :
  exists moved b',
    left [[2;2;0;0]; [0;4;4;0]; [2;0;2;8]; [0;0;0;2048]] = Ok (moved, b')
    /\ b' = [[4;0;0;0]; [8;0;0;0]; [4;8;0;0]; [2048;0;0;0]].
Proof.
  destruct (left_reports_change [[2;2;0;0]; [0;4;4;0]; [2;0;2;8]; [0;0;0;2048]])
    as (moved & b' & E & Eb & _).
  - apply wf_board_rows; reflexivity.
  - exists moved, b'. split; [exact E | exact Eb].
Defined.

(** C7. The merge pass scans left to right and merges an adjacent equal
    pair once: the tiles a move leaves are related to the tiles of the row
    by [merge_once], in which a merged tile is put out and never compared
    again.  So four equal tiles give two tiles of twice the value, and
    [2,2,2,2] gives [4,4,0,0], not [8,0,0,0]. *)
Theorem move_row_left_merges_once :
  (forall row : Row, exists merged,
     move_row_left row = merged ++ repeat 0 (4 - length merged)
     /\ merge_once (filter (fun cell => negb (cell =? 0)) row) merged)
  /\ (forall x rest, merge_loop (x :: x :: rest) [] = x * 2 :: merge_loop rest [])
  /\ (forall x : Z, x <> 0 -> move_row_left [x; x; x; x] = [x * 2; x * 2; 0; 0])
  /\ move_row_left [2; 2; 2; 2] = [4; 4; 0; 0]
  /\ move_row_left [2; 2; 2; 2] <> [8; 0; 0; 0].
Proof.
  split; [|split; [|split; [|split]]].
  - intros row. destruct (move_row_left_shape row) as (mg & E & Hm & _).
    exists mg. split; assumption.
  - apply merge_loop_pair.
  - intros x Hx. unfold move_row_left. simpl filter.
    apply Z.eqb_neq in Hx. rewrite Hx. simpl negb. cbv iota.
    rewrite !merge_loop_pair. reflexivity.
  - reflexivity.
  - discriminate.
Qed.

(** C8. On every 4x4 board the two rotations undo each other, in both
    orders. *)
Theorem rotations_inverse (b : Board) (H : wf_board b) :
  rotate_board_clockwise (rotate_board_counterclockwise b) = b
  /\ rotate_board_counterclockwise (rotate_board_clockwise b) = b.
Proof.
  split.
  - apply rotate_clockwise_counterclockwise; assumption.
  - apply rotate_counterclockwise_clockwise; assumption.
Qed.

Lemma rotations_inverse_witness :
  rotate_board_clockwise
    (rotate_board_counterclockwise
       [[2;2;0;0]; [0;4;4;0]; [2;0;2;8]; [0;0;0;2048]])
  = [[2;2;0;0]; [0;4;4;0]; [2;0;2;8]; [0;0;0;2048]].
Proof.
  apply (rotations_inverse [[2;2;0;0]; [0;4;4;0]; [2;0;2;8]; [0;0;0;2048]]).
  apply wf_board_rows; reflexivity.
Defined.

(** C10. Each of the four moves leaves the sum of the 16 cells unchanged. *)
Theorem moves_preserve_sum (b : Board) (H : wf_board b) :
  forall op, In op [left; right; up; down] ->
  exists moved b', op b = Ok (moved, b') /\ board_sum b' = board_sum b.
Proof.
  intros op Hop. simpl in Hop.
  destruct Hop as [<-|[<-|[<-|[<-|[]]]]]; eexists; eexists.
  - split; [apply left_closed; assumption|].
    apply board_sum_map, move_row_left_sum.
  - split; [apply right_closed; assumption|].
    rewrite board_sum_map by apply row_sum_rev.
    rewrite board_sum_map by apply move_row_left_sum.
    apply board_sum_map, row_sum_rev.
  - split; [apply up_closed; assumption|].
    rewrite board_sum_rotate_clockwise
      by (apply wf_board_moved, wf_rotate_counterclockwise; assumption).
    rewrite board_sum_map by apply move_row_left_sum.
    apply board_sum_rotate_counterclockwise; assumption.
  - split; [apply down_closed; assumption|].
    rewrite board_sum_rotate_counterclockwise
      by (apply wf_board_moved, wf_rotate_clockwise; assumption).
    rewrite board_sum_map by apply move_row_left_sum.
    apply board_sum_rotate_clockwise; assumption.
Qed.

Lemma moves_preserve_sum_witness :
  exists moved b',
    up [[2;2;0;0]; [0;4;4;0]; [2;0;2;8]; [0;0;0;2048]] = Ok (moved, b')
    /\ board_sum b' = 2072.
Proof.
  destruct (moves_preserve_sum [[2;2;0;0]; [0;4;4;0]; [2;0;2;8]; [0;0;0;2048]])
    with (op := up) as (moved & b' & E & Hs).
  - apply wf_board_rows; reflexivity.
  - simpl. auto.
  - exists moved, b'. split; [exact E | exact Hs].
Defined.

(** ** Grids: reads and writes at the positions the loops visit *)

Ltac in_range4 H := simpl in H; destruct H as [<-|[<-|[<-|[<-|[]]]]].

Ltac by_cells H Hr Hc := name_cells H; in_range4 Hr; in_range4 Hc; reflexivity.

Section Grid.
Context {A : Type} (d : A).
Variables (m : list (list A)) (r c : Z).
Hypotheses (Hm : grid4 m) (Hr : In r range4) (Hc : In c range4).

Lemma get2_closed : get2 m r c = Ok (grid_get d m r c).
Proof. by_cells Hm Hr Hc. Qed.

Lemma set2_closed x : set2 m r c x = Ok (grid_set m r c x).
Proof. by_cells Hm Hr Hc. Qed.

Lemma grid4_set x : grid4 (grid_set m r c x).
Proof.
  name_cells Hm; in_range4 Hr; in_range4 Hc; apply grid4_rows; reflexivity.
Qed.



Lemma grid_get_set x : grid_get d (grid_set m r c x) r c = x.
Proof. by_cells Hm Hr Hc. Qed.
End Grid.

(** ** create_points in closed form *)




(** A loop whose body never raises is a fold, and keeps an invariant. *)
Lemma for_each_fold {A S : Type} (P : S -> Prop) (g : S -> A -> S)
    (body : S -> A -> res S) (xs : list A) :
  (forall st x, In x xs -> P st -> body st x = Ok (g st x) /\ P (g st x)) ->
  forall st, P st ->
  for_each xs st body = Ok (fold_left g xs st) /\ P (fold_left g xs st).
Proof.
  induction xs as [|x xs IH]; intros Hb st Hst; [split; auto|].
  destruct (Hb st x (or_introl eq_refl) Hst) as [E HP].
  cbn [for_each fold_left]. rewrite E. cbn [bind].
  apply IH; auto. intros st' y Hy. apply Hb. right; assumption.
Qed.


(** ** get_points never raises on a board *)



(** ** The claims on the heuristic *)


(** The range of the division: the quotient is finite up to
    [2^1035 - 2^981 - 1] and an infinity from there on. *)
Lemma int_div_2048_range :
  is_finite (int_div_2048 (2 ^ 1035 - 2 ^ 981 - 1)) = true
  /\ int_div_2048 (2 ^ 1035 - 2 ^ 981) = infinity
  /\ int_div_2048 (2 ^ 53 + 1) = int_div_2048 (2 ^ 53).
Proof. repeat split; vm_compute; reflexivity. Qed.





(** C2, the code at a failing input.  For the cell [(0, 1)] the value read
    as [down] is the 4 of row 3, at the other end of the column, and that
    far cell raises the weight of [(0, 1)] from 2x to 3x; for a cell of
    row 3 the value read as [down] is 0 although row 2 holds a tile
    there.  Inside the board [up] is the cell of the next row and [down]
    the cell of the row before, while the move [up] shifts tiles towards
    row 0. *)
Theorem neighbors_down_wraps :
  neighbors [[2;4;8;0]; [0;0;0;0]; [0;0;0;0]; [0;4;0;0]] 0 1 = Ok (2, 8, 0, 4)
  /\ neighbors [[0;2;0;0]; [0;4;0;0]; [0;8;0;0]; [0;0;0;0]] 1 1
     = Ok (0, 0, 8, 2)
  /\ up [[0;0;0;0]; [0;4;0;0]; [0;0;0;0]; [0;0;0;0]]
     = Ok (true, [[0;4;0;0]; [0;0;0;0]; [0;0;0;0]; [0;0;0;0]])
  /\ points_at [[2;4;8;0]; [0;0;0;0]; [0;0;0;0]; [0;4;0;0]] 0 1
     = Ok (normalize (3 * 4))
  /\ points_at [[2;4;8;0]; [0;0;0;0]; [0;0;0;0]; [0;0;0;0]] 0 1
     = Ok (normalize (2 * 4))
  /\ neighbors [[0;0;0;0]; [0;0;0;0]; [0;4;0;0]; [0;2;0;0]] 3 1 = Ok (0, 0, 0, 0).
Proof. repeat split; vm_compute; reflexivity. Qed.

(** C9. On the board whose only tile is a 2048, wherever it stands, the
    entry of the scoring matrix for that tile is the float 1.0. *)
Theorem lone_2048_scores_one (r c : Z) :
  In r range4 -> In c range4 ->
  points_at (single_tile r c 2048) r c = Ok (PFloat 1%float).
Proof.
  intros Hr Hc. in_range4 Hr; in_range4 Hc; vm_compute; reflexivity.
Qed.

Lemma lone_2048_scores_one_witness :
  points_at [[0;0;0;0]; [0;0;2048;0]; [0;0;0;0]; [0;0;0;0]] 1 2
  = Ok (PFloat 1%float).
Proof. apply (lone_2048_scores_one 1 2); simpl; auto. Defined.

(** ** Legal moves *)

Lemma rows_changed_exists b :
  rows_changed b = true <-> exists row, In row b /\ move_row_left row <> row.
Proof.
  unfold rows_changed. rewrite existsb_exists.
  split; intros (row & Hin & H); exists row; split; auto.
  - now apply list_eqb_neq, negb_true_iff.
  - now apply negb_true_iff, list_eqb_neq.
Qed.

Lemma wf_board_row b row : wf_board b -> In row b -> length row = 4%nat.
Proof. intros [_ HF] Hin. rewrite Forall_forall in HF. auto. Qed.

Lemma map_rev_rows_involutive (b : Board) : map (@rev Z) (map (@rev Z) b) = b.
Proof.
  rewrite map_map. rewrite <- (map_id b) at 2.
  apply map_ext. intros row. apply rev_involutive.
Qed.

(** Two quarter turns the same way reverse the rows and their order. *)
Lemma rotate_clockwise_twice b :
  wf_board b ->
  rotate_board_clockwise (rotate_board_clockwise b) = rev (map (@rev Z) b).
Proof. intros H. name_cells H. reflexivity. Qed.

Lemma rotate_counterclockwise_twice b :
  wf_board b ->
  rotate_board_counterclockwise (rotate_board_counterclockwise b)
  = rev (map (@rev Z) b).
Proof. intros H. name_cells H. reflexivity. Qed.

(** After the rows of a board moved left and changed, the rows reversed
    can move left again. *)
Lemma rows_changed_reversed b :
  wf_board b -> rows_changed b = true ->
  rows_changed (map (@rev Z) (map move_row_left b)) = true.
Proof.
  intros H Hc. apply rows_changed_exists in Hc as (row & Hin & Hne).
  apply rows_changed_exists. exists (rev (move_row_left row)). split.
  - apply in_map, in_map. assumption.
  - apply move_row_left_rev_changed; [eapply wf_board_row; eauto | assumption].
Qed.

Lemma rows_changed_rev_order b :
  rows_changed (rev b) = rows_changed b.
Proof.
  destruct (rows_changed b) eqn:E.
  - apply rows_changed_exists in E as (row & Hin & Hne).
    apply rows_changed_exists. exists row. split; [now apply in_rev in Hin | auto].
  - destruct (rows_changed (rev b)) eqn:E2; auto.
    apply rows_changed_exists in E2 as (row & Hin & Hne).
    apply in_rev in Hin.
    assert (rows_changed b = true) by (apply rows_changed_exists; eauto).
    congruence.
Qed.

Lemma left_ok b : wf_board b -> move_ok left b.
Proof.
  intros H. exists (rows_changed b), (map move_row_left b).
  split; [apply left_closed; assumption|].
  split; [apply wf_board_moved; assumption|].
  split; [apply rows_changed_true|].
  intros Hc. exists "d"%char, right. eexists. split; [simpl; auto|].
  rewrite right_closed by (apply wf_board_moved; assumption).
  rewrite rows_changed_reversed by assumption. reflexivity.
Qed.

Lemma right_ok b : wf_board b -> move_ok right b.
Proof.
  intros H. pose proof (wf_board_reversed b H) as Hr.
  eexists; eexists.
  split; [apply right_closed; assumption|].
  split; [apply wf_board_reversed, wf_board_moved; assumption|].
  split.
  - rewrite rows_changed_true. split; intros Hne E; apply Hne.
    + rewrite <- E at 2. now rewrite map_rev_rows_involutive.
    + rewrite E. apply map_rev_rows_involutive.
  - intros Hc. exists "a"%char, left. eexists. split; [simpl; auto|].
    rewrite left_closed by (apply wf_board_reversed, wf_board_moved; assumption).
    rewrite rows_changed_reversed by assumption. reflexivity.
Qed.

Lemma up_ok b : wf_board b -> move_ok up b.
Proof.
  intros H. pose proof (wf_rotate_counterclockwise b H) as Hr.
  pose proof (wf_board_moved _ Hr) as Hm.
  eexists; eexists.
  split; [apply up_closed; assumption|].
  split; [apply wf_rotate_clockwise; assumption|].
  split.
  - rewrite rows_changed_true. split; intros Hne E; apply Hne.
    + rewrite <- E at 2. now rewrite rotate_counterclockwise_clockwise.
    + rewrite E. apply rotate_clockwise_counterclockwise; assumption.
  - intros Hc. exists "s"%char, down. eexists. split; [simpl; auto|].
    rewrite down_closed by (apply wf_rotate_clockwise; assumption).
    rewrite rotate_clockwise_twice by assumption.
    rewrite rows_changed_rev_order, rows_changed_reversed by assumption.
    reflexivity.
Qed.

Lemma down_ok b : wf_board b -> move_ok down b.
Proof.
  intros H. pose proof (wf_rotate_clockwise b H) as Hr.
  pose proof (wf_board_moved _ Hr) as Hm.
  eexists; eexists.
  split; [apply down_closed; assumption|].
  split; [apply wf_rotate_counterclockwise; assumption|].
  split.
  - rewrite rows_changed_true. split; intros Hne E; apply Hne.
    + rewrite <- E at 2. now rewrite rotate_clockwise_counterclockwise.
    + rewrite E. apply rotate_counterclockwise_clockwise; assumption.
  - intros Hc. exists "w"%char, up. eexists. split; [simpl; auto|].
    rewrite up_closed by (apply wf_rotate_counterclockwise; assumption).
    rewrite rotate_counterclockwise_twice by assumption.
    rewrite rows_changed_rev_order, rows_changed_reversed by assumption.
    reflexivity.
Qed.

Lemma direction_ok key op b :
  In (key, op) directions -> wf_board b -> move_ok op b.
Proof.
  intros Hin H. simpl in Hin.
  destruct Hin as [E|[E|[E|[E|[]]]]]; injection E as _ <-;
    auto using up_ok, left_ok, down_ok, right_ok.
Qed.

(** ** The search, one direction at a time *)

Lemma evaluate_future_states_unfold board d :
  evaluate_future_states board (S d)
  = (ms <- try_direction (S d) "w" up board [] ;;
     ms <- try_direction (S d) "a" left board ms ;;
     ms <- try_direction (S d) "s" down board ms ;;
     ms <- try_direction (S d) "d" right board ms ;;
     Ok (Branch ms)).
Proof.
  unfold try_direction, future_score. cbn [evaluate_future_states for_each pred].
  unfold guarded. cbn [Ascii.eqb Bool.eqb andb].
  destruct (up board) as [[[] bw]|]; cbn [bind];
    [destruct (get_points bw); cbn [bind];
       [destruct (if (1 <? S d)%nat then _ else _); cbn [bind]|]|..];
    try reflexivity;
  (destruct (left board) as [[[] ba]|]; cbn [bind];
    [destruct (get_points ba); cbn [bind];
       [destruct (if (1 <? S d)%nat then _ else _); cbn [bind]|]|..];
    try reflexivity;
   (destruct (down board) as [[[] bs]|]; cbn [bind];
     [destruct (get_points bs); cbn [bind];
        [destruct (if (1 <? S d)%nat then _ else _); cbn [bind]|]|..];
     try reflexivity;
    (destruct (right board) as [[[] bd]|]; cbn [bind];
      [destruct (get_points bd); cbn [bind];
         [destruct (if (1 <? S d)%nat then _ else _); cbn [bind]|]|..];
      reflexivity))).
Qed.



Lemma direction_entry_fun depth op board e1 e2 :
  direction_entry depth op board e1 -> direction_entry depth op board e2 ->
  e1 = e2.
Proof.
  intros (m1 & b1 & E1 & _ & Hf1 & Ht1) (m2 & b2 & E2 & _ & Hf2 & Ht2).
  rewrite E1 in E2. injection E2 as <- <-.
  destruct m1.
  - destruct (Ht1 eq_refl) as (p1 & f1 & Ep1 & Ef1 & ->).
    destruct (Ht2 eq_refl) as (p2 & f2 & Ep2 & Ef2 & ->).
    congruence.
  - rewrite Hf1, Hf2; auto.
Qed.





(** ** The claims on the search *)





Lemma rows_moved_same r0 r1 r2 r3 :
  move_row_left r0 = r0 -> move_row_left r1 = r1 ->
  move_row_left r2 = r2 -> move_row_left r3 = r3 ->
  map move_row_left [r0; r1; r2; r3] = [r0; r1; r2; r3].
Proof. intros E0 E1 E2 E3. simpl. congruence. Qed.

Lemma rows_unchanged r0 r1 r2 r3 :
  move_row_left r0 = r0 -> move_row_left r1 = r1 ->
  move_row_left r2 = r2 -> move_row_left r3 = r3 ->
  rows_changed [r0; r1; r2; r3] = false.
Proof. intros. apply rows_changed_false, rows_moved_same; assumption. Qed.

(** On such a board no direction changes anything. *)
Lemma full_and_locked_no_move b key op :
  wf_board b -> full_and_locked b -> In (key, op) directions ->
  op b = Ok (false, b).
Proof.
  intros H [Hrows Hcols] Hin. pose proof H as H'. name_cells H'.
  repeat match goal with
  | Hf : Forall _ (_ :: _) |- _ => inversion Hf; clear Hf; subst
  | Hf : Forall _ [] |- _ => clear Hf
  | Hc : _ /\ _ |- _ => destruct Hc
  end.
  cbn [zip_star zip_cons map] in Hcols.
  repeat match goal with
  | Hf : Forall _ (_ :: _) |- _ => inversion Hf; clear Hf; subst
  | Hf : Forall _ [] |- _ => clear Hf
  end.
  cbn [no_equal_neighbors] in *.
  repeat match goal with Hc : _ /\ _ |- _ => destruct Hc end.
  simpl in Hin. destruct Hin as [E|[E|[E|[E|[]]]]]; injection E as _ <-.
  all: rewrite ?up_closed, ?left_closed, ?down_closed, ?right_closed
         by assumption.
  all: match goal with
       | |- context [rows_changed ?R] =>
           let r := eval cbn [rotate_board_clockwise
                              rotate_board_counterclockwise
                              zip_star zip_cons map rev app] in R in
           change R with r
       end.
  all: rewrite rows_unchanged, rows_moved_same
         by (apply move_row_left_fixed;
             first [assumption | apply not_eq_sym; assumption]).
  all: reflexivity.
Qed.

(** C5, as the code has it.  On a full board with no two adjacent equal
    values in any row or column the search returns the empty mapping at
    every depth of at least 1. *)
Theorem locked_board_empty_mapping (b : Board) (depth : nat) :
  wf_board b -> full_and_locked b -> (1 <= depth)%nat ->
  evaluate_future_states b depth = Ok (Branch []).
Proof.
  intros H Hl Hd. destruct depth as [|d]; [lia|].
  rewrite evaluate_future_states_unfold. unfold try_direction.
  rewrite (full_and_locked_no_move b "w" up H Hl) by (simpl; auto).
  rewrite (full_and_locked_no_move b "a" left H Hl) by (simpl; auto).
  rewrite (full_and_locked_no_move b "s" down H Hl) by (simpl; auto 6).
  rewrite (full_and_locked_no_move b "d" right H Hl) by (simpl; auto 6).
  reflexivity.
Qed.

Lemma full_and_locked_checkers :
  wf_board [[2;4;2;4]; [4;2;4;2]; [2;4;2;4]; [4;2;4;2]]
  /\ full_and_locked [[2;4;2;4]; [4;2;4;2]; [2;4;2;4]; [4;2;4;2]].
Proof.
  split; [apply wf_board_rows; reflexivity|].
  split; cbn [zip_star zip_cons map];
    repeat constructor; cbn [no_equal_neighbors]; repeat split; lia.
Qed.

Lemma locked_board_empty_mapping_witness :
  evaluate_future_states [[2;4;2;4]; [4;2;4;2]; [2;4;2;4]; [4;2;4;2]] 5
  = Ok (Branch []).
Proof.
  apply (locked_board_empty_mapping
           [[2;4;2;4]; [4;2;4;2]; [2;4;2;4]; [4;2;4;2]] 5).
  - exact (proj1 full_and_locked_checkers).
  - exact (proj2 full_and_locked_checkers).
  - lia.
Defined.

(** C5 with depth 0 included fails: on such a board the search at depth 0
    returns the bare heuristic score, not a mapping. *)
Lemma locked_board_depth_zero :
  wf_board [[2;4;2;4]; [4;2;4;2]; [2;4;2;4]; [4;2;4;2]]
  /\ full_and_locked [[2;4;2;4]; [4;2;4;2]; [2;4;2;4]; [4;2;4;2]]
  /\ (exists points,
        evaluate_future_states [[2;4;2;4]; [4;2;4;2]; [2;4;2;4]; [4;2;4;2]] 0
        = Ok (Leaf points))
  /\ evaluate_future_states [[2;4;2;4]; [4;2;4;2]; [2;4;2;4]; [4;2;4;2]] 0
     <> Ok (Branch []).
Proof.
  split; [exact (proj1 full_and_locked_checkers)|].
  split; [exact (proj2 full_and_locked_checkers)|].
  split; [eexists|]; vm_compute; [reflexivity | discriminate].
Qed.


(** * More on the move engine *)

(** ** Columns: the rows of the transposed board *)

Lemma zip_star_involutive (b : Board) : wf_board b -> zip_star (zip_star b) = b.
Proof. intros H. name_cells H. reflexivity. Qed.

Lemma wf_zip_star (b : Board) : wf_board b -> wf_board (zip_star b).
Proof. intros H. name_cells H. apply wf_board_rows; reflexivity. Qed.

Lemma zip_star_rev_rows (b : Board) :
  wf_board b -> zip_star (rev b) = map (@rev Z) (zip_star b).
Proof. intros H. name_cells H. reflexivity. Qed.

Lemma zip_star_map_rev (b : Board) :
  wf_board b -> zip_star (map (@rev Z) b) = rev (zip_star b).
Proof. intros H. name_cells H. reflexivity. Qed.

Lemma map_move_rev_order (b : Board) :
  map move_row_left (rev b) = rev (map move_row_left b).
Proof. apply map_rev. Qed.

(** X1. Transposing the board turns [up] into [left] and [down] into
    [right]: [up] moves every column towards row 0 the way [left] moves a
    row towards column 0, and [down] moves it towards row 3. *)
Theorem up_down_on_columns (b : Board) :
  wf_board b ->
  (exists moved b',
     up b = Ok (moved, b') /\ left (zip_star b) = Ok (moved, zip_star b'))
  /\ (exists moved b',
        down b = Ok (moved, b')
        /\ right (zip_star b) = Ok (moved, zip_star b')).
Proof.
  intros H. pose proof (wf_zip_star b H) as Ht. split.
  - eexists; eexists. split; [apply up_closed; assumption|].
    rewrite left_closed by assumption.
    unfold rotate_board_counterclockwise, rotate_board_clockwise.
    rewrite rows_changed_rev_order, map_move_rev_order, rev_involutive.
    rewrite zip_star_involutive by (apply wf_board_moved; assumption).
    reflexivity.
  - eexists; eexists. split; [apply down_closed; assumption|].
    rewrite right_closed by assumption.
    unfold rotate_board_counterclockwise, rotate_board_clockwise.
    rewrite zip_star_rev_rows by assumption.
    rewrite <- zip_star_map_rev
      by (apply wf_board_moved, wf_board_reversed; assumption).
    rewrite zip_star_involutive
      by (apply wf_board_reversed, wf_board_moved, wf_board_reversed;
          assumption).
    reflexivity.
Qed.

Lemma up_down_on_columns_witness :
  exists moved b',
    up [[2;2;0;0]; [0;4;4;0]; [2;0;2;8]; [0;0;0;2048]] = Ok (moved, b')
    /\ left (zip_star [[2;2;0;0]; [0;4;4;0]; [2;0;2;8]; [0;0;0;2048]])
       = Ok (moved, zip_star b').
Proof.
  apply (up_down_on_columns [[2;2;0;0]; [0;4;4;0]; [2;0;2;8]; [0;0;0;2048]]).
  apply wf_board_rows; reflexivity.
Defined.

(** X2. Each of the four moves returns without raising and leaves a 4x4
    board, and its flag is [true] exactly when the board it leaves differs
    from the board it was given. *)
Theorem moves_flag_and_shape (b : Board) :
  wf_board b ->
  forall op, In op [left; right; up; down] ->
  exists moved b',
    op b = Ok (moved, b') /\ wf_board b' /\ (moved = true <-> b' <> b).
Proof.
  intros H op Hop. simpl in Hop.
  destruct Hop as [<-|[<-|[<-|[<-|[]]]]];
    [ destruct (left_ok b H) as (m & b' & E & Hw & Hc & _)
    | destruct (right_ok b H) as (m & b' & E & Hw & Hc & _)
    | destruct (up_ok b H) as (m & b' & E & Hw & Hc & _)
    | destruct (down_ok b H) as (m & b' & E & Hw & Hc & _) ];
    exists m, b'; auto.
Qed.

Lemma moves_flag_and_shape_witness :
  exists moved b',
    down [[2;2;0;0]; [0;4;4;0]; [2;0;2;8]; [0;0;0;2048]] = Ok (moved, b')
    /\ wf_board b'.
Proof.
  destruct (moves_flag_and_shape
              [[2;2;0;0]; [0;4;4;0]; [2;0;2;8]; [0;0;0;2048]])
    with (op := down) as (moved & b' & E & Hw & _).
  - apply wf_board_rows; reflexivity.
  - simpl. auto.
  - exists moved, b'. split; [exact E | exact Hw].
Defined.

(** X3. After a move that changed the board the opposite move is legal:
    [right] after [left], [left] after [right], [down] after [up] and [up]
    after [down]. *)
Theorem opposite_move_is_legal (b b' : Board) :
  wf_board b ->
  forall op back,
    In (op, back) [(left, right); (right, left); (up, down); (down, up)] ->
    op b = Ok (true, b') ->
    exists b'', back b' = Ok (true, b'').
Proof.
  intros H op back Hin Eop. simpl in Hin.
  pose proof (wf_board_reversed b H) as Hrev.
  pose proof (wf_rotate_clockwise b H) as Hcw.
  pose proof (wf_rotate_counterclockwise b H) as Hccw.
  destruct Hin as [E|[E|[E|[E|[]]]]]; injection E as <- <-.
  - rewrite left_closed in Eop by assumption. injection Eop as Hc <-.
    rewrite right_closed by (apply wf_board_moved; assumption).
    rewrite rows_changed_reversed by assumption. eauto.
  - rewrite right_closed in Eop by assumption. injection Eop as Hc <-.
    rewrite left_closed
      by (apply wf_board_reversed, wf_board_moved; assumption).
    rewrite rows_changed_reversed by assumption. eauto.
  - rewrite up_closed in Eop by assumption. injection Eop as Hc <-.
    rewrite down_closed
      by (apply wf_rotate_clockwise, wf_board_moved; assumption).
    rewrite rotate_clockwise_twice by (apply wf_board_moved; assumption).
    rewrite rows_changed_rev_order, rows_changed_reversed by assumption.
    eauto.
  - rewrite down_closed in Eop by assumption. injection Eop as Hc <-.
    rewrite up_closed
      by (apply wf_rotate_counterclockwise, wf_board_moved; assumption).
    rewrite rotate_counterclockwise_twice
      by (apply wf_board_moved; assumption).
    rewrite rows_changed_rev_order, rows_changed_reversed by assumption.
    eauto.
Qed.

Lemma opposite_move_is_legal_witness :
  exists b'',
    right [[4;0;0;0]; [8;0;0;0]; [4;8;0;0]; [2048;0;0;0]] = Ok (true, b'').
Proof.
  apply (opposite_move_is_legal
           [[2;2;0;0]; [0;4;4;0]; [2;0;2;8]; [0;0;0;2048]]
           [[4;0;0;0]; [8;0;0;0]; [4;8;0;0]; [2048;0;0;0]]
           ltac:(apply wf_board_rows; reflexivity) left right).
  - simpl. auto.
  - reflexivity.
Defined.


(** ** Where the tiles of a moved board come from *)

Lemma merge_once_origin l out :
  merge_once l out ->
  forall v, In v out -> In v l \/ exists w, In w l /\ v = 2 * w.
Proof.
  induction 1 as [| x | x rest out Hm IH | x y rest out Hxy Hm IH];
    intros v Hv.
  - inversion Hv.
  - auto.
  - destruct Hv as [<-|Hv].
    + right. exists x. split; [left; reflexivity | reflexivity].
    + destruct (IH v Hv) as [Hin|(w & Hin & ->)].
      * left. right. right. assumption.
      * right. exists w. split; [right; right; assumption | reflexivity].
  - destruct Hv as [<-|Hv].
    + left. left. reflexivity.
    + destruct (IH v Hv) as [Hin|(w & Hin & ->)].
      * left. right. assumption.
      * right. exists w. split; [right; assumption | reflexivity].
Qed.

Lemma move_row_left_origin row v :
  In v (move_row_left row) ->
  v = 0 \/ In v row \/ exists w, In w row /\ v = 2 * w.
Proof.
  destruct (move_row_left_shape row) as (mg & -> & Hm & _).
  intros Hv. apply in_app_or in Hv as [Hv|Hv].
  - destruct (merge_once_origin _ _ Hm v Hv) as [Hin|(w & Hin & ->)].
    + apply filter_In in Hin as [Hin _]. auto.
    + apply filter_In in Hin as [Hin _]. right. right. eauto.
  - apply repeat_spec in Hv. auto.
Qed.

Lemma on_board_rows v b : on_board v b <-> exists row, In row b /\ In v row.
Proof. unfold on_board. rewrite in_concat. split; intros (r & ? & ?); eauto. Qed.

Lemma on_board_reversed v b : on_board v (map (@rev Z) b) <-> on_board v b.
Proof.
  rewrite !on_board_rows. split.
  - intros (row & Hrow & Hv). apply in_map_iff in Hrow as (row0 & <- & Hrow0).
    exists row0. split; [assumption | now apply in_rev].
  - intros (row & Hrow & Hv). exists (rev row).
    split; [now apply in_map | now apply in_rev in Hv].
Qed.

Lemma on_board_zip_star v b :
  wf_board b -> on_board v (zip_star b) <-> on_board v b.
Proof. intros H. name_cells H. unfold on_board. simpl. tauto. Qed.

Lemma on_board_rev_order v b : on_board v (rev b) <-> on_board v b.
Proof.
  rewrite !on_board_rows. split; intros (row & Hrow & Hv); exists row;
    (split; [|assumption]); [now apply in_rev | now apply in_rev in Hrow].
Qed.

Lemma on_board_moved v b :
  on_board v (map move_row_left b) ->
  v = 0 \/ on_board v b \/ exists w, on_board w b /\ v = 2 * w.
Proof.
  rewrite on_board_rows. intros (row & Hrow & Hv).
  apply in_map_iff in Hrow as (row0 & <- & Hrow0).
  destruct (move_row_left_origin row0 v Hv) as [?|[Hin|(w & Hin & ->)]]; auto.
  - right. left. apply on_board_rows. eauto.
  - right. right. exists w. split; [apply on_board_rows; eauto | reflexivity].
Qed.

(** A cell of the board a direction leaves holds 0, a value the board
    held, or twice one. *)
Lemma move_origin key op b moved b' v :
  wf_board b -> In (key, op) directions -> op b = Ok (moved, b') ->
  on_board v b' ->
  v = 0 \/ on_board v b \/ exists w, on_board w b /\ v = 2 * w.
Proof.
  intros H Hin Eop Hv. simpl in Hin.
  pose proof (wf_board_reversed b H) as Hrev.
  pose proof (wf_rotate_clockwise b H) as Hcw.
  pose proof (wf_rotate_counterclockwise b H) as Hccw.
  destruct Hin as [E|[E|[E|[E|[]]]]]; injection E as _ <-.
  - rewrite up_closed in Eop by assumption. injection Eop as _ <-.
    unfold rotate_board_clockwise in Hv.
    rewrite on_board_zip_star in Hv
      by (rewrite <- map_rev; apply wf_board_moved;
          unfold rotate_board_counterclockwise; rewrite rev_involutive;
          apply wf_zip_star; assumption).
    rewrite on_board_rev_order in Hv. apply on_board_moved in Hv.
    unfold rotate_board_counterclockwise in Hv.
    setoid_rewrite on_board_rev_order in Hv.
    setoid_rewrite on_board_zip_star in Hv; assumption.
  - rewrite left_closed in Eop by assumption. injection Eop as _ <-.
    now apply on_board_moved.
  - rewrite down_closed in Eop by assumption. injection Eop as _ <-.
    unfold rotate_board_counterclockwise in Hv.
    rewrite on_board_rev_order in Hv.
    rewrite on_board_zip_star in Hv by (apply wf_board_moved; assumption).
    apply on_board_moved in Hv. unfold rotate_board_clockwise in Hv.
    assert (Hr : wf_board (rev b)).
    { destruct H as [HL HF]. split; [now rewrite length_rev|].
      now apply Forall_rev. }
    setoid_rewrite (on_board_zip_star _ (rev b) Hr) in Hv.
    setoid_rewrite on_board_rev_order in Hv. assumption.
  - rewrite right_closed in Eop by assumption. injection Eop as _ <-.
    rewrite on_board_reversed in Hv. apply on_board_moved in Hv.
    setoid_rewrite on_board_reversed in Hv. assumption.
Qed.

(** ** check_2048 *)

Lemma check_2048_on_board b : check_2048 b = true <-> on_board 2048 b.
Proof.
  unfold check_2048. rewrite existsb_exists, on_board_rows.
  split; intros (row & Hrow & Hv); exists row; split; auto.
  - apply existsb_exists in Hv as (x & Hx & E). apply Z.eqb_eq in E. now subst.
  - apply existsb_exists. exists 2048. split; [assumption | reflexivity].
Qed.

Lemma is_tile_double w : is_tile w -> is_tile (2 * w).
Proof.
  intros [->|(k & Hk & ->)]; [left; reflexivity|].
  right. exists (k + 1). split; [lia|]. rewrite Z.pow_add_r by lia. lia.
Qed.


Lemma direction_valid key op (b : Board) moved b' :
  wf_board b -> valid_board b ->
  In (key, op) directions -> op b = Ok (moved, b') -> valid_board b'.
Proof.
  intros H Hv Hin Eop v Hon.
  destruct (move_origin key op b moved b' v H Hin Eop Hon)
    as [->|[Hb|(w & Hw & ->)]].
  - left. reflexivity.
  - auto.
  - apply is_tile_double. auto.
Qed.

(** X4. The moves keep the tiles of the game: on a board whose cells are
    0 or powers of two from 2 on, whatever a direction leaves is such a
    board again. *)
Theorem moves_keep_tiles (b : Board) :
  wf_board b -> valid_board b ->
  forall key op moved b',
    In (key, op) directions -> op b = Ok (moved, b') -> valid_board b'.
Proof.
  intros H Hv key op moved b'. now apply direction_valid.
Qed.

Lemma valid_board_example :
  valid_board [[2;2;0;0]; [0;4;4;0]; [2;0;2;8]; [0;0;0;2048]].
Proof.
  intros v Hv. unfold on_board in Hv. simpl in Hv.
  repeat (destruct Hv as [<-|Hv]; [
    first [ left; reflexivity
          | right; exists 1; split; [lia | reflexivity]
          | right; exists 2; split; [lia | reflexivity]
          | right; exists 3; split; [lia | reflexivity]
          | right; exists 11; split; [lia | reflexivity] ] |]).
  contradiction.
Qed.

Lemma moves_keep_tiles_witness :
  valid_board [[4;0;0;0]; [8;0;0;0]; [4;8;0;0]; [2048;0;0;0]].
Proof.
  apply (moves_keep_tiles [[2;2;0;0]; [0;4;4;0]; [2;0;2;8]; [0;0;0;2048]]
           ltac:(apply wf_board_rows; reflexivity) valid_board_example
           "a"%char left true).
  - simpl. auto.
  - reflexivity.
Defined.

(** X5. A move puts a 2048 on the board only where the board already
    held a 2048 or held a 1024: if [check_2048] holds after a direction,
    then it held before or some cell held 1024. *)
Theorem new_2048_needs_1024 (b : Board) :
  wf_board b ->
  forall key op moved b',
    In (key, op) directions -> op b = Ok (moved, b') ->
    check_2048 b' = true ->
    check_2048 b = true \/ on_board 1024 b.
Proof.
  intros H key op moved b' Hin Eop Hc.
  apply check_2048_on_board in Hc.
  destruct (move_origin key op b moved b' 2048 H Hin Eop Hc)
    as [E|[Hb|(w & Hw & E)]].
  - discriminate.
  - left. now apply check_2048_on_board.
  - right. assert (w = 1024) by lia. now subst.
Qed.

Lemma new_2048_needs_1024_witness :
  check_2048 [[0;0;1024;1024]; [0;0;0;0]; [0;0;0;0]; [0;0;0;0]] = true
  \/ on_board 1024 [[0;0;1024;1024]; [0;0;0;0]; [0;0;0;0]; [0;0;0;0]].
Proof.
  apply (new_2048_needs_1024
           [[0;0;1024;1024]; [0;0;0;0]; [0;0;0;0]; [0;0;0;0]]
           ltac:(apply wf_board_rows; reflexivity)
           "a"%char left true
           [[2048;0;0;0]; [0;0;0;0]; [0;0;0;0]; [0;0;0;0]]).
  - simpl. auto.
  - reflexivity.
  - reflexivity.
Defined.

(** ** Empty cells *)

Lemma count_row_cons x v l :
  count_row x (v :: l) = (if v =? x then 1 else 0) + count_row x l.
Proof. reflexivity. Qed.

Lemma count_board_cons x row b :
  count_board x (row :: b) = count_row x row + count_board x b.
Proof. reflexivity. Qed.

Lemma count_row_app x l1 l2 :
  count_row x (l1 ++ l2) = count_row x l1 + count_row x l2.
Proof.
  induction l1 as [|v l1 IH]; [reflexivity|].
  cbn [app]. rewrite !count_row_cons, IH. ring.
Qed.

Lemma count_row_rev x l : count_row x (rev l) = count_row x l.
Proof.
  induction l as [|v l IH]; [reflexivity|].
  cbn [rev]. rewrite count_row_app, IH, !count_row_cons.
  change (count_row x []) with 0. ring.
Qed.

Lemma count_row_bounds x l : 0 <= count_row x l <= Z.of_nat (length l).
Proof.
  induction l as [|v l IH]; [simpl; lia|].
  rewrite count_row_cons. cbn [length]. destruct (v =? x); lia.
Qed.

Lemma count_board_nonneg x b : 0 <= count_board x b.
Proof.
  induction b as [|row b IH]; [simpl; lia|].
  rewrite count_board_cons. pose proof (count_row_bounds x row). lia.
Qed.

Lemma count_row_zeros n : count_row 0 (repeat 0 n) = Z.of_nat n.
Proof.
  induction n as [|n IH]; [reflexivity|].
  cbn [repeat]. rewrite count_row_cons, IH. simpl (0 =? 0). lia.
Qed.

Lemma count_row_nonzero l : Forall (fun x => x <> 0) l -> count_row 0 l = 0.
Proof.
  induction 1 as [|v l Hv _ IH]; [reflexivity|].
  rewrite count_row_cons, IH. apply Z.eqb_neq in Hv. rewrite Hv. reflexivity.
Qed.

Lemma count_row_filter row :
  count_row 0 row + Z.of_nat (length (filter nonzero row))
  = Z.of_nat (length row).
Proof.
  induction row as [|v row IH]; [reflexivity|].
  rewrite count_row_cons. cbn [filter length].
  unfold nonzero at 1. destruct (v =? 0); cbn [negb length]; lia.
Qed.

(** A move never fills a cell of a row. *)
Lemma move_row_left_zeros row :
  length row = 4%nat -> count_row 0 row <= count_row 0 (move_row_left row).
Proof.
  intros HL. destruct (move_row_left_shape row) as (mg & -> & Hm & Hnz).
  pose proof (merge_once_length _ _ Hm) as H1.
  pose proof (count_row_filter row) as H2.
  pose proof (filter_length_le nonzero row) as H3.
  rewrite count_row_app, count_row_zeros, (count_row_nonzero mg) by assumption.
  lia.
Qed.

Lemma count_board_map_le x (f : Row -> Row) b :
  (forall row, In row b -> count_row x row <= count_row x (f row)) ->
  count_board x b <= count_board x (map f b).
Proof.
  induction b as [|row b IH]; intros Hf; [simpl; lia|].
  cbn [map]. rewrite !count_board_cons.
  pose proof (Hf row (or_introl eq_refl)).
  assert (count_board x b <= count_board x (map f b))
    by (apply IH; intros; apply Hf; right; assumption).
  lia.
Qed.

Lemma count_board_map_eq x (f : Row -> Row) b :
  (forall row, count_row x (f row) = count_row x row) ->
  count_board x (map f b) = count_board x b.
Proof.
  intros Hf. induction b as [|row b IH]; [reflexivity|].
  cbn [map]. rewrite !count_board_cons, Hf, IH. reflexivity.
Qed.

Lemma count_board_rotate_clockwise x b :
  wf_board b -> count_board x (rotate_board_clockwise b) = count_board x b.
Proof.
  intros H. name_cells H.
  cbn [rotate_board_clockwise zip_star zip_cons map rev app
       count_board count_row fold_right]. ring.
Qed.

Lemma count_board_rotate_counterclockwise x b :
  wf_board b ->
  count_board x (rotate_board_counterclockwise b) = count_board x b.
Proof.
  intros H. name_cells H.
  cbn [rotate_board_counterclockwise zip_star zip_cons map rev app
       count_board count_row fold_right]. ring.
Qed.

Lemma count_board_moved b :
  wf_board b -> count_board 0 b <= count_board 0 (map move_row_left b).
Proof.
  intros H. apply count_board_map_le. intros row Hrow.
  apply move_row_left_zeros. eapply wf_board_row; eauto.
Qed.

(** After its rows moved left and changed, a board has an empty cell. *)
Lemma count_board_changed b :
  wf_board b -> rows_changed b = true ->
  1 <= count_board 0 (map move_row_left b).
Proof.
  intros H Hc. apply rows_changed_exists in Hc as (row & Hrow & Hne).
  pose proof (wf_board_row b row H Hrow) as HL.
  destruct (move_row_left_changed row HL Hne) as [_ Hlast].
  assert (Hrow1 : 1 <= count_row 0 (move_row_left row)).
  { destruct (move_row_left_cells row HL) as (w & x & y & z & E).
    rewrite E in *. simpl in Hlast. subst z.
    rewrite !count_row_cons. simpl (0 =? 0). change (count_row 0 []) with 0.
    destruct (w =? 0), (x =? 0), (y =? 0); lia. }
  clear H. induction b as [|row0 b IH]; [inversion Hrow|].
  cbn [map]. rewrite count_board_cons.
  pose proof (count_row_bounds 0 (move_row_left row0)).
  pose proof (count_board_nonneg 0 (map move_row_left b)).
  destruct Hrow as [->|Hrow]; [lia|].
  specialize (IH Hrow). lia.
Qed.


(** [count_cells] counts the cells holding [x]. *)
Lemma fold_count x l : forall n,
  fold_left (fun n v => if v =? x then n + 1 else n) l n = n + count_row x l.
Proof.
  induction l as [|v l IH]; intros n; [simpl; lia|].
  cbn [fold_left]. rewrite IH, count_row_cons. destruct (v =? x); lia.
Qed.

Lemma fold_left_map {A B C : Type} (f : A -> B -> A) (g : C -> B) l : forall a,
  fold_left (fun a c => f a (g c)) l a = fold_left f (map g l) a.
Proof. induction l as [|c l IH]; intros a; [reflexivity | apply IH]. Qed.

Lemma grid_row_cells (b : Board) r :
  wf_board b -> In r range4 ->
  map (grid_get 0 b r) range4 = nth (Z.to_nat r) b [].
Proof. intros H Hr. name_cells H. in_range4 Hr; reflexivity. Qed.

Lemma count_cells_closed board x :
  wf_board board -> count_cells board x = Ok (count_board x board).
Proof.
  intros H. unfold count_cells.
  pose (g := fun (r n c : Z) =>
               if grid_get 0 board r c =? x then n + 1 else n).
  destruct (for_each_fold (fun _ : Z => True)
              (fun n r => fold_left (g r) range4 n)
              (fun n r => for_each range4 n (fun n c =>
                 v <- get2 board r c ;; Ok (if v =? x then n + 1 else n)))
              range4) with (st := 0) as [E _]; [| exact I |].
  - intros n r Hr _.
    apply (for_each_fold (fun _ : Z => True) (g r)); [|exact I].
    intros n' c Hc _. split; [|exact I].
    rewrite (get2_closed 0) by assumption. reflexivity.
  - rewrite E. f_equal.
    assert (Hrow : forall r n, In r range4 ->
              fold_left (g r) range4 n
              = n + count_row x (nth (Z.to_nat r) board [])).
    { intros r n Hr. unfold g.
      rewrite (fold_left_map (fun n v => if v =? x then n + 1 else n)
                 (grid_get 0 board r)).
      rewrite grid_row_cells by assumption. apply fold_count. }
    unfold range4 at 2. cbn [fold_left].
    rewrite !Hrow by (simpl; auto 6).
    pose proof H as H'. name_rows H'. simpl. lia.
Qed.

(** The count of empty cells across a direction. *)
Lemma direction_empty_cells key op (b : Board) moved b' :
  wf_board b -> In (key, op) directions -> op b = Ok (moved, b') ->
  count_board 0 b <= count_board 0 b'
  /\ (moved = true -> 1 <= count_board 0 b').
Proof.
  intros H Hin Eop.
  pose proof (wf_board_reversed b H) as Hrev.
  pose proof (wf_rotate_clockwise b H) as Hcw.
  pose proof (wf_rotate_counterclockwise b H) as Hccw.
  simpl in Hin. destruct Hin as [E|[E|[E|[E|[]]]]]; injection E as _ <-.
  - rewrite up_closed in Eop by assumption. injection Eop as <- <-.
    rewrite count_board_rotate_clockwise by (apply wf_board_moved; assumption).
    rewrite <- (count_board_rotate_counterclockwise 0 b H) at 1.
    split; [apply count_board_moved | apply count_board_changed]; assumption.
  - rewrite left_closed in Eop by assumption. injection Eop as <- <-.
    split; [apply count_board_moved | apply count_board_changed]; assumption.
  - rewrite down_closed in Eop by assumption. injection Eop as <- <-.
    rewrite count_board_rotate_counterclockwise
      by (apply wf_board_moved; assumption).
    rewrite <- (count_board_rotate_clockwise 0 b H) at 1.
    split; [apply count_board_moved | apply count_board_changed]; assumption.
  - rewrite right_closed in Eop by assumption. injection Eop as <- <-.
    rewrite count_board_map_eq by (apply count_row_rev).
    rewrite <- (count_board_map_eq 0 (@rev Z) b (count_row_rev 0)) at 1.
    split; [apply count_board_moved | apply count_board_changed]; assumption.
Qed.


(** X6. No move fills a cell: after each of the four directions the
    board has at least as many empty cells as before, and at least one
    when the direction reports a change, so that a tile can be added. *)
Theorem moves_keep_empty_cells (b : Board) :
  wf_board b ->
  forall key op, In (key, op) directions ->
  exists moved b' n n',
    op b = Ok (moved, b')
    /\ count_cells b 0 = Ok n /\ count_cells b' 0 = Ok n'
    /\ n <= n' /\ (moved = true -> 1 <= n').
Proof.
  intros H key op Hin.
  destruct (direction_ok key op b Hin H) as (moved & b' & Eop & Hwf & _).
  exists moved, b', (count_board 0 b), (count_board 0 b').
  split; [assumption|].
  rewrite !count_cells_closed by assumption.
  split; [reflexivity|]. split; [reflexivity|].
  eapply direction_empty_cells; eassumption.
Qed.

Lemma moves_keep_empty_cells_witness :
  exists moved b' n n',
    up [[2;2;0;0]; [0;4;4;0]; [2;0;2;8]; [0;0;0;2048]] = Ok (moved, b')
    /\ count_cells [[2;2;0;0]; [0;4;4;0]; [2;0;2;8]; [0;0;0;2048]] 0 = Ok n
    /\ count_cells b' 0 = Ok n' /\ n <= n'.
Proof.
  destruct (moves_keep_empty_cells
              [[2;2;0;0]; [0;4;4;0]; [2;0;2;8]; [0;0;0;2048]]
              ltac:(apply wf_board_rows; reflexivity) "w"%char up)
    as (moved & b' & n & n' & E & En & En' & Hle & _).
  - simpl. auto.
  - exists moved, b', n, n'. auto.
Defined.


(** * is_game_over *)

(** A loop that returns [false] at the first element failing a test. *)
Lemma for_each_return {A : Type} (test : A -> bool)
    (body : option bool -> A -> res (option bool)) (xs : list A) :
  (forall v x, body (Some v) x = Ok (Some v)) ->
  (forall x, In x xs ->
     body None x = Ok (if test x then None else Some false)) ->
  forall st,
    for_each xs st body
    = Ok (match st with
          | Some v => Some v
          | None => if forallb test xs then None else Some false
          end).
Proof.
  intros Hs Hn. induction xs as [|x xs IH]; intros st.
  - destruct st; reflexivity.
  - cbn [for_each forallb]. destruct st as [v|].
    + rewrite Hs. cbn [bind]. rewrite IH by (intros; apply Hn; right; assumption).
      reflexivity.
    + rewrite Hn by (left; reflexivity). cbn [bind].
      rewrite IH by (intros; apply Hn; right; assumption).
      destruct (test x); reflexivity.
Qed.

Lemma for_each_returned {A : Type}
    (body : option bool -> A -> res (option bool)) (xs : list A) v :
  (forall v x, body (Some v) x = Ok (Some v)) ->
  for_each xs (Some v) body = Ok (Some v).
Proof.
  intros Hs. induction xs as [|x xs IH]; [reflexivity|].
  cbn [for_each]. rewrite Hs. cbn [bind]. exact IH.
Qed.

Lemma is_game_over_cell b r c :
  wf_board b -> In r range4 -> In c range4 ->
  (v <- get2 b r c ;;
   if v =? 0 then Ok (Some false) else
   same <- (if r <? 3 then w <- get2 b (r + 1) c ;; Ok (v =? w)
            else Ok false) ;;
   if same then Ok (Some false) else
   same <- (if c <? 3 then w <- get2 b r (c + 1) ;; Ok (v =? w)
            else Ok false) ;;
   if same then Ok (Some false) else Ok None)
  = Ok (if cell_locked b r c then None else Some false).
Proof.
  intros H Hr Hc. unfold cell_locked.
  in_range4 Hr; in_range4 Hc;
    repeat match goal with
    | |- context [?a <? 3] =>
        let v := eval compute in (a <? 3) in change (a <? 3) with v
    | |- context [?a + 1] =>
        let v := eval compute in (a + 1) in change (a + 1) with v
    end;
    cbn [andb];
    rewrite ?(get2_closed 0) by (assumption || (simpl; auto 6));
    cbn [bind];
    repeat match goal with
    | |- context [?x =? ?y] => destruct (x =? y); cbn [bind negb andb]
    end; reflexivity.
Qed.

Lemma is_game_over_closed b :
  wf_board b ->
  is_game_over b
  = Ok (forallb (fun r => forallb (cell_locked b r) range4) range4).
Proof.
  intros H. unfold is_game_over.
  rewrite (for_each_return (fun r => forallb (cell_locked b r) range4)).
  - cbn [bind]. destruct (forallb _ range4); reflexivity.
  - intros v r. apply for_each_returned. reflexivity.
  - intros r Hr.
    rewrite (for_each_return (cell_locked b r)); [reflexivity | reflexivity |].
    intros c Hc. apply is_game_over_cell; assumption.
Qed.


Lemma full_and_locked_cells (b : Board) :
  wf_board b ->
  forallb (fun r => forallb (cell_locked b r) range4) range4 = true
  <-> full_and_locked b.
Proof.
  intros H. name_cells H. unfold full_and_locked.
  cbn [zip_star zip_cons map].
  unfold cell_locked, range4. cbn -[Z.eqb].
  split.
  - intros Hb.
    repeat match goal with
    | Hc : _ && _ = true |- _ => apply andb_prop in Hc; destruct Hc
    | Hc : negb _ = true |- _ => apply negb_true_iff in Hc
    | Hc : (_ =? _) = false |- _ => apply Z.eqb_neq in Hc
    | Hc : true = true |- _ => clear Hc
    end.
    split; repeat (apply Forall_cons; [cbn [no_equal_neighbors]|]);
      try apply Forall_nil; repeat split;
      repeat (apply Forall_cons); try apply Forall_nil; assumption.
  - intros [Hrows Hcols].
    repeat match goal with
    | Hf : Forall _ (_ :: _) |- _ =>
        apply Forall_cons_iff in Hf; destruct Hf
    | Hf : Forall _ [] |- _ => clear Hf
    | Hc : _ /\ _ |- _ => destruct Hc
    end.
    cbn [no_equal_neighbors] in *.
    repeat match goal with
    | Hc : _ /\ _ |- _ => destruct Hc
    | Hc : True |- _ => clear Hc
    end.
    repeat (apply andb_true_intro; split);
      first [ reflexivity
            | apply negb_true_iff, Z.eqb_neq; assumption ].
Qed.


Lemma merge_once_no_merge l out :
  merge_once l out -> length out = length l -> no_equal_neighbors l.
Proof.
  induction 1 as [| x | x rest out Hm IH | x y rest out Hxy Hm IH];
    intros HL; cbn [no_equal_neighbors]; auto.
  - apply merge_once_length in Hm. simpl in HL. lia.
  - split; [assumption|]. apply IH. simpl in *. lia.
Qed.

Lemma filter_nonzero_none row :
  filter nonzero row = [] -> Forall (fun x => x = 0) row.
Proof.
  intros E. apply filter_nonzero_nil in E. rewrite E.
  apply Forall_forall. intros x Hx. now apply repeat_spec in Hx.
Qed.

Lemma filter_nonzero_id row :
  filter nonzero row = row -> Forall (fun x => x <> 0) row.
Proof. intros E. rewrite <- E. apply filter_nonzero_all. Qed.

(** A row that neither [left] nor [right] changes is settled. *)
Lemma row_fixed_both_ways row :
  length row = 4%nat ->
  move_row_left row = row -> move_row_left (rev row) = rev row ->
  row_settled row.
Proof.
  intros HL El Er.
  destruct (list_eq_dec Z.eq_dec (filter nonzero row) []) as [E0|Hne].
  { left. now apply filter_nonzero_none. }
  right.
  destruct (move_row_left_shape row) as (mg & E & Hm & Hnz).
  pose proof (merge_once_length _ _ Hm) as H1.
  pose proof (filter_length_le nonzero row) as H2.
  destruct (Nat.eq_dec (length mg) 4) as [E4|N4].
  - assert (Hf : filter nonzero row = row)
      by (apply filter_same_length; lia).
    split; [now apply filter_nonzero_id|].
    rewrite Hf in Hm. apply (merge_once_no_merge _ _ Hm). lia.
  - exfalso.
    assert (Hlast : last row 1 = 0).
    { rewrite <- El, E.
      destruct (4 - length mg)%nat as [|k] eqn:Ek; [lia|].
      apply last_app_zeros. }
    assert (Hne' : filter nonzero (rev row) <> []).
    { intros E'. apply Hne.
      destruct (filter nonzero row) as [|x t] eqn:Ef; [reflexivity|].
      assert (Hin : In x (filter nonzero (rev row))).
      { assert (Hx : In x (filter nonzero row)) by (rewrite Ef; left; reflexivity).
        apply filter_In in Hx as [Hx Hnzx]. apply filter_In.
        split; [now apply in_rev in Hx | assumption]. }
      rewrite E' in Hin. inversion Hin. }
    apply move_row_left_hd in Hne'. rewrite Er, hd_rev in Hne'.
    assert (Hl : forall (l : list Z) d d', l <> [] -> last l d = last l d').
    { induction l as [|y l IH]; intros d d' Hn; [congruence|].
      destruct l; [reflexivity|]. apply IH. discriminate. }
    destruct row as [|x row']; [discriminate|].
    rewrite (Hl (x :: row') 0 1) in Hne' by discriminate. congruence.
Qed.


Lemma map_fixed {A} (f : A -> A) l :
  map f l = l -> Forall (fun x => f x = x) l.
Proof.
  induction l as [|x l IH]; simpl; intros E; constructor;
    injection E; auto.
Qed.

Lemma rows_settled (b : Board) :
  wf_board b ->
  rows_changed b = false -> rows_changed (map (@rev Z) b) = false ->
  Forall row_settled b.
Proof.
  intros H H1 H2.
  apply rows_changed_false, map_fixed in H1.
  apply rows_changed_false, map_fixed in H2.
  rewrite Forall_map in H2. rewrite Forall_forall in *.
  intros row Hin. apply row_fixed_both_ways; auto.
  destruct H as [_ Hrows]. rewrite Forall_forall in Hrows. auto.
Qed.

(** Without a legal move every row and every column is settled. *)
Lemma no_move_settled (b : Board) :
  wf_board b -> ~ has_move b ->
  Forall row_settled b /\ Forall row_settled (zip_star b).
Proof.
  intros H Hno.
  assert (Hflag : forall key op moved b',
             In (key, op) directions -> op b = Ok (moved, b') -> moved = false).
  { intros key op [|] b' Hin E; [|reflexivity].
    exfalso. apply Hno. exists key, op, b'. auto. }
  pose proof (wf_zip_star b H) as Ht.
  split; apply rows_settled; try assumption.
  - eapply (Hflag "a"%char left); [simpl; auto | apply left_closed, H].
  - eapply (Hflag "d"%char right); [simpl; auto | apply right_closed, H].
  - rewrite <- rows_changed_rev_order.
    eapply (Hflag "w"%char up); [simpl; auto | apply up_closed, H].
  - rewrite <- zip_star_rev_rows by assumption.
    eapply (Hflag "s"%char down); [simpl; auto | apply down_closed, H].
Qed.

Lemma settled_zero_cell (row : Row) :
  row_settled row -> In 0 row -> Forall (fun x => x = 0) row.
Proof.
  intros [Hz|[Hnz _]] Hin; [assumption|].
  rewrite Forall_forall in Hnz. now apply Hnz in Hin.
Qed.

Lemma settled_tile_cell (row : Row) v :
  row_settled row -> In v row -> v <> 0 ->
  Forall (fun x => x <> 0) row /\ no_equal_neighbors row.
Proof.
  intros [Hz|Hfull] Hin Hv; [|assumption].
  rewrite Forall_forall in Hz. now apply Hz in Hin.
Qed.

Lemma Forall4 {A} (P : A -> Prop) a b c d :
  P a -> P b -> P c -> P d -> Forall P [a; b; c; d].
Proof. repeat constructor; assumption. Qed.

Ltac in_cells :=
  solve [simpl; repeat (first [left; reflexivity | right])].

Ltac settled_by_tile :=
  match goal with
  | Hs : row_settled ?r, Hx : ?x <> 0 |- Forall _ ?r =>
      exact (proj1 (settled_tile_cell r x Hs ltac:(in_cells) Hx))
  | Hs : row_settled ?r, Hx : ?x <> 0 |- no_equal_neighbors ?r =>
      exact (proj2 (settled_tile_cell r x Hs ltac:(in_cells) Hx))
  end.

(** A board with a tile whose rows and columns are all settled is full and
    locked. *)
Lemma settled_full_and_locked (b : Board) :
  wf_board b -> has_tile b ->
  Forall row_settled b -> Forall row_settled (zip_star b) ->
  full_and_locked b.
Proof.
  intros H (row & v & Hrow & Hv & Hnz) Hr Hc.
  (* the row of the tile is full *)
  assert (Hfull : Forall (fun x => x <> 0) row).
  { rewrite Forall_forall in Hr.
    apply (settled_tile_cell row v); auto. }
  (* so every column holds a tile, and is full and locked *)
  assert (Hcols : Forall (fun col => Forall (fun x => x <> 0) col
                                     /\ no_equal_neighbors col) (zip_star b)).
  { name_cells H. cbn [zip_star zip_cons map] in *.
    simpl in Hrow.
    repeat match goal with
    | Hf : Forall _ (_ :: _) |- _ =>
        apply Forall_cons_iff in Hf; destruct Hf
    | Hf : Forall _ [] |- _ => clear Hf
    end.
    destruct Hrow as [<-|[<-|[<-|[<-|[]]]]];
      repeat match goal with
      | Hf : Forall _ (_ :: _) |- _ =>
          apply Forall_cons_iff in Hf; destruct Hf
      | Hf : Forall _ [] |- _ => clear Hf
      end;
      apply Forall4; split;
      settled_by_tile. }
  (* and so is every row *)
  split.
  - clear Hrow Hv Hfull Hc row v Hnz.
    name_cells H. cbn [zip_star zip_cons map] in *.
    repeat match goal with
    | Hf : Forall _ (_ :: _) |- _ =>
        apply Forall_cons_iff in Hf; destruct Hf
    | Hf : Forall _ [] |- _ => clear Hf
    | Hf : _ /\ _ |- _ => destruct Hf
    end.
    apply Forall4; split;
      settled_by_tile.
  - eapply Forall_impl; [|exact Hcols]. intros col [_ Hn]. exact Hn.
Qed.


Lemma full_and_locked_has_tile (b : Board) :
  wf_board b -> full_and_locked b -> has_tile b.
Proof.
  intros H [Hrows _]. name_cells H.
  apply Forall_cons_iff in Hrows as [[Hnz _] _].
  apply Forall_cons_iff in Hnz as [Hnz _].
  eexists; eexists. split; [left; reflexivity|].
  split; [left; reflexivity | exact Hnz].
Qed.

Lemma full_and_locked_stuck (b : Board) :
  wf_board b -> full_and_locked b -> ~ has_move b.
Proof.
  intros H Hl (key & op & b' & Hin & E).
  rewrite (full_and_locked_no_move b key op H Hl Hin) in E. discriminate.
Qed.

(** X7. On a 4x4 board [is_game_over] never raises, and it answers [True]
    exactly when every cell holds a tile and no two cells next to each
    other in a row or in a column hold the same value. *)
Theorem is_game_over_locked (b : Board) :
  wf_board b ->
  exists over,
    is_game_over b = Ok over /\ (over = true <-> full_and_locked b).
Proof.
  intros H. eexists. split; [apply is_game_over_closed, H|].
  apply full_and_locked_cells, H.
Qed.

Lemma is_game_over_locked_witness :
  exists over,
    is_game_over [[2;4;2;4]; [4;2;4;2]; [2;4;2;4]; [4;2;4;8]] = Ok over
    /\ (over = true
        <-> full_and_locked [[2;4;2;4]; [4;2;4;2]; [2;4;2;4]; [4;2;4;8]]).
Proof.
  apply (is_game_over_locked [[2;4;2;4]; [4;2;4;2]; [2;4;2;4]; [4;2;4;8]]).
  apply wf_board_rows; reflexivity.
Defined.

(** X8. [is_game_over] against the move engine: on a 4x4 board it answers
    [True] exactly when the board holds a tile and none of [up], [left],
    [down], [right] changes it.  (The board of sixteen zeros has no move
    either, and there the answer is [False].) *)
Theorem is_game_over_no_move (b : Board) :
  wf_board b ->
  is_game_over b = Ok true <-> has_tile b /\ ~ has_move b.
Proof.
  intros H. rewrite (is_game_over_closed b H). split.
  - intros [= E]. apply (full_and_locked_cells b H) in E.
    split; [now apply full_and_locked_has_tile
           | now apply full_and_locked_stuck].
  - intros [Ht Hno]. f_equal. apply (full_and_locked_cells b H).
    destruct (no_move_settled b H Hno) as [Hr Hc].
    now apply settled_full_and_locked.
Qed.

Lemma is_game_over_no_move_witness :
  is_game_over [[2;4;2;4]; [4;2;4;2]; [2;4;2;4]; [4;2;4;8]] = Ok true
  <-> has_tile [[2;4;2;4]; [4;2;4;2]; [2;4;2;4]; [4;2;4;8]]
      /\ ~ has_move [[2;4;2;4]; [4;2;4;2]; [2;4;2;4]; [4;2;4;8]].
Proof.
  apply (is_game_over_no_move [[2;4;2;4]; [4;2;4;2]; [2;4;2;4]; [4;2;4;8]]).
  apply wf_board_rows; reflexivity.
Defined.


(** * Adding tiles *)

(** ** The list of empty cells *)

Lemma fold_filter {A} (p : A -> bool) l : forall acc,
  fold_left (fun acc x => if p x then acc ++ [x] else acc) l acc
  = acc ++ filter p l.
Proof.
  induction l as [|x l IH]; intros acc; cbn [fold_left filter].
  - now rewrite app_nil_r.
  - rewrite IH. destruct (p x); [|reflexivity].
    now rewrite <- app_assoc.
Qed.

Lemma empty_cells_closed board :
  wf_board board ->
  empty_cells board = Ok (filter (is_empty board) positions).
Proof.
  intros H. unfold empty_cells.
  pose (f := fun (acc : list (Z * Z)) rc =>
               if is_empty board rc then acc ++ [rc] else acc).
  destruct (for_each_fold (fun _ : list (Z * Z) => True)
              (fun acc r => fold_left (fun acc c => f acc (r, c)) range4 acc)
              (fun empty r => for_each range4 empty (fun empty c =>
                 v <- get2 board r c ;;
                 Ok (if v =? 0 then empty ++ [(r, c)] else empty)))
              range4) with (st := @nil (Z * Z)) as [E _]; [| exact I |].
  - intros acc r Hr _.
    apply (for_each_fold (fun _ : list (Z * Z) => True)
             (fun acc c => f acc (r, c))); [|exact I].
    intros acc' c Hc _. split; [|exact I].
    rewrite (get2_closed 0) by assumption. reflexivity.
  - rewrite E. f_equal.
    assert (Hrow : forall r acc,
              fold_left (fun acc c => f acc (r, c)) range4 acc
              = acc ++ filter (is_empty board) (map (pair r) range4)).
    { intros r acc. rewrite (fold_left_map f (pair r)). apply fold_filter. }
    unfold range4 at 2. cbn [fold_left]. rewrite !Hrow.
    change positions
      with (map (pair 0) range4 ++ map (pair 1) range4
            ++ map (pair 2) range4 ++ map (pair 3) range4).
    rewrite !filter_app, <- !app_assoc. reflexivity.
Qed.

Lemma in_positions r c : In (r, c) positions <-> In r range4 /\ In c range4.
Proof. apply in_prod_iff. Qed.

Lemma choice_in {A} (seq : list A) k :
  seq <> [] -> exists x, choice seq k = Ok x /\ In x seq.
Proof.
  intros Hne. unfold choice.
  assert (Hlt : (k mod length seq < length seq)%nat).
  { apply Nat.mod_upper_bound. destruct seq; [congruence | discriminate]. }
  destruct (nth_error seq (k mod length seq)) as [x|] eqn:E.
  - exists x. split; [reflexivity|]. eapply nth_error_In, E.
  - apply nth_error_None in E. lia.
Qed.

Lemma choice_any {A} (seq : list A) x :
  In x seq -> exists k, choice seq k = Ok x.
Proof.
  intros Hin. apply In_nth_error in Hin as [n E]. exists n.
  assert (Hlt : (n < length seq)%nat)
    by (apply nth_error_Some; congruence).
  unfold choice. rewrite Nat.mod_small, E by assumption. reflexivity.
Qed.

(** ** A board with one cell replaced *)

Lemma grid_get_set_other {A} (d : A) m r c r' c' x :
  grid4 m -> In r range4 -> In c range4 -> In r' range4 -> In c' range4 ->
  (r', c') <> (r, c) ->
  grid_get d (grid_set m r c x) r' c' = grid_get d m r' c'.
Proof.
  intros H Hr Hc Hr' Hc' Hne. name_cells H.
  in_range4 Hr; in_range4 Hc; in_range4 Hr'; in_range4 Hc';
    first [reflexivity | congruence].
Qed.

Lemma board_sum_set (b : Board) r c v :
  wf_board b -> In r range4 -> In c range4 ->
  board_sum (grid_set b r c v) = board_sum b - grid_get 0 b r c + v.
Proof.
  intros H Hr Hc. name_cells H. in_range4 Hr; in_range4 Hc;
    cbv [board_sum row_sum grid_set grid_get replace_nth nth Z.to_nat
         Pos.to_nat Pos.iter_op Nat.add fold_right]; lia.
Qed.

Lemma count_board_set (b : Board) r c v x :
  wf_board b -> In r range4 -> In c range4 ->
  count_board x (grid_set b r c v)
  = count_board x b - (if grid_get 0 b r c =? x then 1 else 0)
    + (if v =? x then 1 else 0).
Proof.
  intros H Hr Hc. name_cells H. in_range4 Hr; in_range4 Hc;
    cbv [count_board count_row grid_set grid_get replace_nth nth Z.to_nat
         Pos.to_nat Pos.iter_op Nat.add fold_right]; lia.
Qed.

Lemma on_board_set (b : Board) r c v w :
  wf_board b -> In r range4 -> In c range4 ->
  on_board w (grid_set b r c v) -> w = v \/ on_board w b.
Proof.
  intros H Hr Hc. name_cells H. unfold on_board.
  in_range4 Hr; in_range4 Hc;
    cbv [grid_set replace_nth nth Z.to_nat Pos.to_nat Pos.iter_op Nat.add
         concat app In];
    intuition auto.
Qed.

Lemma has_tile_set (b : Board) r c v :
  wf_board b -> In r range4 -> In c range4 -> v <> 0 ->
  has_tile (grid_set b r c v).
Proof.
  intros H Hr Hc Hv.
  exists (nth (Z.to_nat r) (grid_set b r c v) []), v.
  name_cells H. in_range4 Hr; in_range4 Hc;
    (split; [simpl; tauto | split; [simpl; tauto | assumption]]).
Qed.


(** ** add_random_tile *)

Lemma row_empty_count (b : Board) r :
  wf_board b -> In r range4 ->
  Z.of_nat (length (filter (is_empty b) (map (pair r) range4)))
  = count_row 0 (nth (Z.to_nat r) b []).
Proof.
  intros H Hr. name_cells H. in_range4 Hr;
    cbv [is_empty range4 map filter fst snd grid_get nth Z.to_nat Pos.to_nat
         Pos.iter_op Nat.add count_row fold_right];
    repeat match goal with
    | |- context [?x =? 0] => destruct (x =? 0)
    end; reflexivity.
Qed.

Lemma empty_count (b : Board) :
  wf_board b ->
  Z.of_nat (length (filter (is_empty b) positions)) = count_board 0 b.
Proof.
  intros H.
  change positions
    with (map (pair 0) range4 ++ map (pair 1) range4
          ++ map (pair 2) range4 ++ map (pair 3) range4).
  rewrite !filter_app, !length_app, !Nat2Z.inj_add.
  rewrite !row_empty_count by (assumption || (simpl; auto 6)).
  name_rows H. simpl. lia.
Qed.

Lemma new_tile_cases u : new_tile u = 2 \/ new_tile u = 4.
Proof. unfold new_tile. destruct (_ <? _)%float; auto. Qed.

(** What [add_random_tile] does, by the list of empty cells. *)
Lemma add_random_tile_cases board k u :
  wf_board board ->
  (count_board 0 board = 0 /\ add_random_tile board k u = Ok board)
  \/ (0 < count_board 0 board
      /\ exists r c,
           In r range4 /\ In c range4 /\ grid_get 0 board r c = 0
           /\ choice (filter (is_empty board) positions) k = Ok (r, c)
           /\ add_random_tile board k u
              = Ok (grid_set board r c (new_tile u))).
Proof.
  intros H. unfold add_random_tile.
  rewrite empty_cells_closed by assumption. cbn [bind].
  pose proof (empty_count board H) as Hn.
  destruct (filter (is_empty board) positions) as [|rc rest] eqn:E.
  - left. split; [simpl in Hn; lia | reflexivity].
  - right. split; [simpl length in Hn; lia|].
    destruct (choice_in (rc :: rest) k) as ([r c] & Ec & Hin);
      [discriminate|].
    rewrite <- E in Hin. apply filter_In in Hin as [Hpos He].
    apply in_positions in Hpos as [Hr Hc].
    exists r, c. repeat split; try assumption.
    + now apply Z.eqb_eq in He.
    + rewrite Ec. cbn [bind]. now apply set2_closed.
Qed.

(** X9. [add_random_tile] on a 4x4 board never raises and leaves a 4x4
    board.  A board without an empty cell is left as it is; otherwise one
    cell that was empty now holds 2 (when the draw is below 0.9) or 4, and
    every other cell is unchanged. *)
Theorem add_random_tile_places_one (board : Board) (k : nat) (u : float) :
  wf_board board ->
  exists b',
    add_random_tile board k u = Ok b' /\ wf_board b'
    /\ ((count_board 0 board = 0 /\ b' = board)
        \/ (0 < count_board 0 board
            /\ exists r c,
                 In r range4 /\ In c range4
                 /\ placed board b' r c
                      (if (u <? 0x1.ccccccccccccdp-1)%float then 2 else 4))).
Proof.
  intros H.
  destruct (add_random_tile_cases board k u H)
    as [[Hfull E]|(Hgap & r & c & Hr & Hc & H0 & _ & E)].
  - exists board. auto.
  - exists (grid_set board r c (new_tile u)).
    split; [assumption|]. split; [now apply grid4_set|].
    right. split; [assumption|]. exists r, c.
    split; [assumption|]. split; [assumption|].
    split; [assumption|]. split.
    + now apply grid_get_set.
    + intros r' c' Hr' Hc' Hne. now apply grid_get_set_other.
Qed.

Lemma add_random_tile_places_one_witness :
  exists b',
    add_random_tile [[2;2;0;0]; [0;4;4;0]; [2;0;2;8]; [0;0;0;2048]] 13 0.5
    = Ok b'
    /\ wf_board b'.
Proof.
  destruct (add_random_tile_places_one
              [[2;2;0;0]; [0;4;4;0]; [2;0;2;8]; [0;0;0;2048]] 13 0.5)
    as (b' & E & Hw & _).
  - apply wf_board_rows; reflexivity.
  - exists b'. split; [exact E | exact Hw].
Defined.

(** The accounts of [add_random_tile] on a board with an empty cell. *)
Lemma add_random_tile_gap (board : Board) (k : nat) (u : float) :
  wf_board board -> 0 < count_board 0 board ->
  exists b' v,
    add_random_tile board k u = Ok b'
    /\ wf_board b'
    /\ (v = 2 \/ v = 4)
    /\ board_sum b' = board_sum board + v
    /\ count_board 0 b' = count_board 0 board - 1
    /\ has_tile b'
    /\ (forall w, on_board w b' -> w = v \/ on_board w board).
Proof.
  intros H Hgap.
  destruct (add_random_tile_cases board k u H)
    as [[Hfull E]|(_ & r & c & Hr & Hc & H0 & _ & E)]; [lia|].
  exists (grid_set board r c (new_tile u)), (new_tile u).
  pose proof (new_tile_cases u) as Hv.
  split; [assumption|]. split; [now apply grid4_set|].
  split; [assumption|]. split; [|split; [|split]].
  - rewrite board_sum_set, H0 by assumption. lia.
  - rewrite count_board_set, H0 by assumption.
    destruct Hv as [-> | ->]; simpl; lia.
  - apply has_tile_set; try assumption. destruct Hv as [-> | ->]; lia.
  - intros w Hw. now apply on_board_set in Hw.
Qed.

Lemma is_tile_new v : v = 2 \/ v = 4 -> is_tile v.
Proof.
  intros [-> | ->]; right; [exists 1 | exists 2]; split; lia.
Qed.

(** X10. The accounts of [add_random_tile]: on a board with an empty cell
    the sum of the cells grows by the new tile, 2 or 4, the number of
    empty cells drops by one, the board holds a tile, and tiles that were
    zero or powers of two stay so. *)
Theorem add_random_tile_accounts (board : Board) (k : nat) (u : float) :
  wf_board board -> 0 < count_board 0 board ->
  exists b' v,
    add_random_tile board k u = Ok b'
    /\ (v = 2 \/ v = 4)
    /\ board_sum b' = board_sum board + v
    /\ count_board 0 b' = count_board 0 board - 1
    /\ has_tile b'
    /\ (valid_board board -> valid_board b').
Proof.
  intros H Hgap.
  destruct (add_random_tile_gap board k u H Hgap)
    as (b' & v & E & _ & Hv & Hs & Hc & Ht & Hon).
  exists b', v. repeat (split; [assumption|]).
  intros Hvalid w Hw. apply Hon in Hw as [-> | Hw];
    [now apply is_tile_new | now apply Hvalid].
Qed.

Lemma add_random_tile_accounts_witness :
  exists b' v,
    add_random_tile [[2;2;0;0]; [0;4;4;0]; [2;0;2;8]; [0;0;0;2048]] 13 0.9375
    = Ok b'
    /\ (v = 2 \/ v = 4)
    /\ board_sum b' = 2072 + v.
Proof.
  destruct (add_random_tile_accounts
              [[2;2;0;0]; [0;4;4;0]; [2;0;2;8]; [0;0;0;2048]] 13 0.9375)
    as (b' & v & E & Hv & Hs & _).
  - apply wf_board_rows; reflexivity.
  - vm_compute. reflexivity.
  - exists b', v. split; [exact E|]. split; [exact Hv | exact Hs].
Defined.

(** X11. Every empty cell can receive the tile, and which value it
    receives depends on the second draw alone: for each empty cell there
    is a first draw for which [add_random_tile] writes there, 2 when the
    second draw is below 0.9 and 4 otherwise. *)
Theorem add_random_tile_any_empty_cell (board : Board) (r c : Z) :
  wf_board board -> In r range4 -> In c range4 ->
  grid_get 0 board r c = 0 ->
  exists k, forall u,
    add_random_tile board k u
    = Ok (grid_set board r c
            (if (u <? 0x1.ccccccccccccdp-1)%float then 2 else 4)).
Proof.
  intros H Hr Hc H0.
  assert (Hin : In (r, c) (filter (is_empty board) positions)).
  { apply filter_In. split; [now apply in_positions|].
    unfold is_empty. cbn [fst snd]. now apply Z.eqb_eq. }
  destruct (choice_any _ _ Hin) as [k Ek]. exists k. intros u.
  unfold add_random_tile. rewrite empty_cells_closed by assumption.
  cbn [bind].
  destruct (filter (is_empty board) positions) as [|rc rest];
    [inversion Hin|].
  rewrite Ek. cbn [bind]. now apply set2_closed.
Qed.

Lemma add_random_tile_any_empty_cell_witness :
  exists k, forall u,
    add_random_tile [[2;2;0;0]; [0;4;4;0]; [2;0;2;8]; [0;0;0;2048]] k u
    = Ok (grid_set [[2;2;0;0]; [0;4;4;0]; [2;0;2;8]; [0;0;0;2048]] 2 1
            (if (u <? 0x1.ccccccccccccdp-1)%float then 2 else 4)).
Proof.
  apply (add_random_tile_any_empty_cell
           [[2;2;0;0]; [0;4;4;0]; [2;0;2;8]; [0;0;0;2048]] 2 1).
  - apply wf_board_rows; reflexivity.
  - simpl. auto.
  - simpl. auto.
  - reflexivity.
Defined.


(** ** A tile and a gap make a move *)

Lemma has_move_dec (b : Board) : wf_board b -> has_move b \/ ~ has_move b.
Proof.
  intros H.
  destruct (up_ok b H) as ([|] & bw & Ew & _);
    [left; exists "w"%char, up, bw; simpl; auto|].
  destruct (left_ok b H) as ([|] & ba & Ea & _);
    [left; exists "a"%char, left, ba; simpl; auto|].
  destruct (down_ok b H) as ([|] & bs & Es & _);
    [left; exists "s"%char, down, bs; simpl; auto 6|].
  destruct (right_ok b H) as ([|] & bd & Ed & _);
    [left; exists "d"%char, right, bd; simpl; auto 6|].
  right. intros (key & op & b' & Hin & E). simpl in Hin.
  destruct Hin as [Hk|[Hk|[Hk|[Hk|[]]]]]; injection Hk as _ <-; congruence.
Qed.

Lemma full_and_locked_count (b : Board) :
  full_and_locked b -> count_board 0 b = 0.
Proof.
  intros [Hrows _]. induction Hrows as [|row b [Hnz _] _ IH]; [reflexivity|].
  rewrite count_board_cons, IH, count_row_nonzero by assumption. reflexivity.
Qed.

Lemma stuck_full_and_locked (b : Board) :
  wf_board b -> has_tile b -> ~ has_move b -> full_and_locked b.
Proof.
  intros H Ht Hno. destruct (no_move_settled b H Hno) as [Hr Hc].
  now apply settled_full_and_locked.
Qed.

Lemma gap_has_move (b : Board) :
  wf_board b -> has_tile b -> 0 < count_board 0 b -> has_move b.
Proof.
  intros H Ht Hgap. destruct (has_move_dec b H) as [Hm|Hno]; [assumption|].
  pose proof (full_and_locked_count b (stuck_full_and_locked b H Ht Hno)).
  lia.
Qed.

(** X12. A board that holds a tile and an empty cell has a legal move:
    one of [up], [left], [down], [right] changes it. *)
Theorem tile_and_gap_has_move (b : Board) :
  wf_board b -> has_tile b -> 0 < count_board 0 b ->
  exists key op b', In (key, op) directions /\ op b = Ok (true, b').
Proof. apply gap_has_move. Qed.

Lemma tile_and_gap_has_move_witness :
  exists key op b',
    In (key, op) directions
    /\ op [[0;0;0;0]; [0;0;0;0]; [0;0;2;0]; [0;0;0;0]] = Ok (true, b').
Proof.
  apply (tile_and_gap_has_move [[0;0;0;0]; [0;0;0;0]; [0;0;2;0]; [0;0;0;0]]).
  - apply wf_board_rows; reflexivity.
  - exists [0;0;2;0], 2. simpl. repeat split; auto; lia.
  - vm_compute. reflexivity.
Defined.

(** ** init_board *)

Lemma init_board_ok k1 u1 k2 u2 :
  exists b v1 v2,
    init_board k1 u1 k2 u2 = Ok b /\ wf_board b
    /\ (v1 = 2 \/ v1 = 4) /\ (v2 = 2 \/ v2 = 4)
    /\ board_sum b = v1 + v2 /\ count_board 0 b = 14
    /\ has_tile b
    /\ (forall w, on_board w b -> w = 0 \/ w = v1 \/ w = v2).
Proof.
  unfold init_board.
  assert (H0 : wf_board (repeat (repeat 0 4) 4))
    by (apply wf_board_rows; reflexivity).
  destruct (add_random_tile_gap (repeat (repeat 0 4) 4) k1 u1 H0)
    as (b1 & v1 & E1 & H1 & Hv1 & Hs1 & Hc1 & Ht1 & Hon1);
    [vm_compute; reflexivity|].
  change (board_sum (repeat (repeat 0 4) 4)) with 0 in Hs1.
  change (count_board 0 (repeat (repeat 0 4) 4)) with 16 in Hc1.
  destruct (add_random_tile_gap b1 k2 u2 H1)
    as (b2 & v2 & E2 & H2 & Hv2 & Hs2 & Hc2 & Ht2 & Hon2); [lia|].
  exists b2, v1, v2. rewrite E1. cbn [bind]. rewrite E2. cbn [bind].
  split; [reflexivity|]. split; [assumption|].
  split; [assumption|]. split; [assumption|].
  split; [lia|]. split; [lia|]. split; [assumption|].
  intros w Hw. apply Hon2 in Hw as [-> | Hw]; [auto|].
  apply Hon1 in Hw as [-> | Hw]; [auto|].
  left. unfold on_board in Hw. simpl in Hw. intuition auto.
Qed.

(** X13. [init_board] never raises, whatever is drawn: it returns a 4x4
    board with fourteen empty cells and two tiles, each 2 or 4, so the
    cells sum to 4, 6 or 8; the board has a legal move. *)
Theorem init_board_two_tiles (k1 : nat) (u1 : float) (k2 : nat) (u2 : float) :
  exists b,
    init_board k1 u1 k2 u2 = Ok b
    /\ wf_board b
    /\ count_board 0 b = 14
    /\ (board_sum b = 4 \/ board_sum b = 6 \/ board_sum b = 8)
    /\ (forall v, on_board v b -> v = 0 \/ v = 2 \/ v = 4)
    /\ has_move b.
Proof.
  destruct (init_board_ok k1 u1 k2 u2)
    as (b & v1 & v2 & E & H & Hv1 & Hv2 & Hs & Hc & Ht & Hon).
  exists b. split; [assumption|]. split; [assumption|].
  split; [assumption|]. split; [lia|]. split.
  - intros v Hv. apply Hon in Hv. lia.
  - apply gap_has_move; try assumption. lia.
Qed.


(** * Choosing and making a move *)










(** * The game loop *)





(** ** The loop ends *)








(** * The order of the mapping *)





(** * Quarter turns *)

(** X19. Two quarter turns give the same board whichever way they go, the
    board with its rows reversed and in reverse order, and four quarter
    turns the same way give the board back. *)
Theorem half_and_full_turns (b : Board) :
  wf_board b ->
  rotate_board_clockwise (rotate_board_clockwise b) = rev (map (@rev Z) b)
  /\ rotate_board_counterclockwise (rotate_board_counterclockwise b)
     = rev (map (@rev Z) b)
  /\ rotate_board_clockwise
       (rotate_board_clockwise
          (rotate_board_clockwise (rotate_board_clockwise b))) = b
  /\ rotate_board_counterclockwise
       (rotate_board_counterclockwise
          (rotate_board_counterclockwise (rotate_board_counterclockwise b)))
     = b.
Proof. intros H. name_cells H. repeat split; reflexivity. Qed.

Lemma half_and_full_turns_witness :
  rotate_board_clockwise
    (rotate_board_clockwise [[2;2;0;0]; [0;4;4;0]; [2;0;2;8]; [0;0;0;2048]])
  = [[2048;0;0;0]; [8;2;0;2]; [0;4;4;0]; [0;0;2;2]].
Proof.
  apply (half_and_full_turns [[2;2;0;0]; [0;4;4;0]; [2;0;2;8]; [0;0;0;2048]]).
  apply wf_board_rows; reflexivity.
Defined.


(** * What print_board prints *)







